(** * The serux search widget ([static/index.js])

    A shallow embedding of the browser script [static/index.js] and the
    properties of its request / response / render cycle.

    The script is a classic (sloppy mode) script with one async function,
    [search], and one [keypress] listener.  JavaScript runs it on a single
    thread: between two [await]s a piece of [search] runs to completion, and a
    suspended call continues only when the event loop delivers the outcome of
    the promise it waits for.  The embedding follows that structure: every
    straight-line piece of the script is a computation in a state-and-exception
    monad over the [World] (page, globals, network log, suspended calls), and
    the event loop is a step function over the events the environment can
    deliver (key presses, edits of the input field, settled promises). *)

From Stdlib Require Import NArith ZArith String Ascii DecimalString.
From stdpp Require Import base option list.

Set Warnings "-register-all".

(** ** Strings

    A JavaScript string is a sequence of UTF-16 code units. *)

Definition JSString : Type := list N.

(** String literals of the script, all ASCII. *)
Definition lit (s : string) : JSString :=
  map N_of_ascii (list_ascii_of_string s).

Definition is_high_surrogate (u : N) : bool :=
  ((0xD800 <=? u) && (u <=? 0xDBFF))%N.
Definition is_low_surrogate (u : N) : bool :=
  ((0xDC00 <=? u) && (u <=? 0xDFFF))%N.

(** The values produced by a string iterator: one string per code point, a
    surrogate pair staying together. *)
Fixpoint code_points (s : JSString) : list JSString :=
  match s with
  | [] => []
  | u :: rest =>
      match rest with
      | v :: rest' =>
          if is_high_surrogate u && is_low_surrogate v
          then [u; v] :: code_points rest'
          else [u] :: code_points rest
      | [] => [[u]]
      end
  end.

(** ** Numbers

    [JSON.parse] produces IEEE doubles and [createTextNode] prints them with
    [Number::toString]; both belong to the engine, not to the script.  The
    number type and its printing are an interface of the development. *)

Class JSNumber (Number : Type) := NumberToString : Number → JSString.

(** ** Exceptions and DOM nodes *)

Inductive Error :=
  | ReferenceError         (* reading a variable that is not defined *)
  | TypeErrorNull          (* property access on [null] *)
  | TypeErrorNotIterable   (* [for ... of] or a destructuring pattern on a non-iterable *)
  | TypeErrorNotPrimitive  (* "Cannot convert object to primitive value" *)
  | TypeErrorFetch         (* the rejection reason of a failed [fetch] *)
  | SyntaxErrorJSON        (* the rejection reason of [response.json()] on a malformed body *)
  | HierarchyRequestError. (* [appendChild] on a node that cannot have children *)

Inductive Completion (A : Type) :=
  | Normal (a : A)
  | Throw (e : Error).
Arguments Normal {A} a.
Arguments Throw {A} e.

(** A node that the script builds: an element with its tag name, its
    [className] and its children, or a text node. *)
Inductive Node :=
  | Elem (tagName className : JSString) (childNodes : list Node)
  | Text (data : JSString).

(** The two elements of the hosting page that the script looks up by id,
    taken to be two separate elements, neither inside the other.  Of an
    element the script touches its children ([innerHTML], [appendChild]) and
    its [value]. *)
Inductive ElementRef := ResultsRef | QueryRef.

Record Element := { children : list Node; value : JSString }.

Record Request := {
  url : JSString;
  method : JSString;
  headers : list (JSString * JSString);
  body : JSString
}.

Record KeyboardEvent := { key : JSString; defaultPrevented : bool }.

#[global] Instance Error_eq_dec : EqDecision Error.
Proof. solve_decision. Defined.
#[global] Instance ElementRef_eq_dec : EqDecision ElementRef.
Proof. solve_decision. Defined.

Section Model.
Context {Number : Type} `{!JSNumber Number}.

(** ** JSON values

    What [response.json()] can resolve with.  An object keeps its members as
    the parser met them. *)
Inductive Json :=
  | JNull
  | JBool (b : bool)
  | JNumber (n : Number)
  | JString (s : JSString)
  | JArray (elements : list Json)
  | JObject (members : list (JSString * Json)).

(** A language value as the loop sees it: a destructuring pattern binds
    [undefined] where the iterator runs out. *)
Inductive Value :=
  | Undefined
  | FromJson (j : Json).

(** The locals of a call of [search] suspended at an [await], and the state of
    the promise the call returned once it is settled.  Nothing ever attaches a
    handler to that promise (the listener drops it), so a [Rejected] call is
    an unhandled rejection. *)
Inductive Activation :=
  | AwaitFetch (requests : option ElementRef)
  | AwaitJson (requests : option ElementRef) (resultList : Node)
  | Fulfilled
  | Rejected (reason : Error).

(** ** The world the script runs in *)
Record World := {
  results_el : option Element;    (* the element with id "results", if any *)
  query_el : option Element;      (* the element with id "query", if any *)
  var_query : option ElementRef;  (* the global [let query]; [None] is [null] *)
  listening : option ElementRef;  (* the element the keypress listener is on *)
  global_path : option Value;     (* the global property [path], if created *)
  global_rank : option Value;     (* the global property [rank], if created *)
  network : list Request;         (* the requests issued, oldest first *)
  calls : list Activation;        (* the calls of [search], in call order *)
  uncaught : list Error           (* exceptions reported by the event loop *)
}.

(** ** The monad of straight-line script code

    A computation reads and writes the world and either completes normally or
    throws; what it did before throwing stays done. *)
Definition JS (A : Type) : Type := World → Completion A * World.

#[global] Instance JS_ret : MRet JS := λ A a w, (Normal a, w).
#[global] Instance JS_bind : MBind JS := λ A B f m w,
  match m w with
  | (Normal a, w') => f a w'
  | (Throw e, w') => (Throw e, w')
  end.

Definition throw {A} (e : Error) : JS A := λ w, (Throw e, w).
Definition lift {A} (c : Completion A) : JS A := λ w, (c, w).
Definition modify (f : World → World) : JS unit := λ w, (Normal (), f w).

(** Field updates of the world. *)
Definition set_results_el (x : option Element) (w : World) : World :=
  {| results_el := x; query_el := query_el w; var_query := var_query w;
     listening := listening w; global_path := global_path w;
     global_rank := global_rank w; network := network w; calls := calls w;
     uncaught := uncaught w |}.
Definition set_query_el (x : option Element) (w : World) : World :=
  {| results_el := results_el w; query_el := x; var_query := var_query w;
     listening := listening w; global_path := global_path w;
     global_rank := global_rank w; network := network w; calls := calls w;
     uncaught := uncaught w |}.
Definition set_var_query (x : option ElementRef) (w : World) : World :=
  {| results_el := results_el w; query_el := query_el w; var_query := x;
     listening := listening w; global_path := global_path w;
     global_rank := global_rank w; network := network w; calls := calls w;
     uncaught := uncaught w |}.
Definition set_listening (x : option ElementRef) (w : World) : World :=
  {| results_el := results_el w; query_el := query_el w; var_query := var_query w;
     listening := x; global_path := global_path w;
     global_rank := global_rank w; network := network w; calls := calls w;
     uncaught := uncaught w |}.
Definition set_global_path (x : option Value) (w : World) : World :=
  {| results_el := results_el w; query_el := query_el w; var_query := var_query w;
     listening := listening w; global_path := x;
     global_rank := global_rank w; network := network w; calls := calls w;
     uncaught := uncaught w |}.
Definition set_global_rank (x : option Value) (w : World) : World :=
  {| results_el := results_el w; query_el := query_el w; var_query := var_query w;
     listening := listening w; global_path := global_path w;
     global_rank := x; network := network w; calls := calls w;
     uncaught := uncaught w |}.
Definition set_network (x : list Request) (w : World) : World :=
  {| results_el := results_el w; query_el := query_el w; var_query := var_query w;
     listening := listening w; global_path := global_path w;
     global_rank := global_rank w; network := x; calls := calls w;
     uncaught := uncaught w |}.
Definition set_calls (x : list Activation) (w : World) : World :=
  {| results_el := results_el w; query_el := query_el w; var_query := var_query w;
     listening := listening w; global_path := global_path w;
     global_rank := global_rank w; network := network w; calls := x;
     uncaught := uncaught w |}.
Definition set_uncaught (x : list Error) (w : World) : World :=
  {| results_el := results_el w; query_el := query_el w; var_query := var_query w;
     listening := listening w; global_path := global_path w;
     global_rank := global_rank w; network := network w; calls := calls w;
     uncaught := x |}.

(** ** The engine and DOM operations the script calls *)

Definition element (r : ElementRef) (w : World) : option Element :=
  match r with
  | ResultsRef => results_el w
  | QueryRef => query_el w
  end.

Definition set_element (r : ElementRef) (e : Element) (w : World) : World :=
  match r with
  | ResultsRef => set_results_el (Some e) w
  | QueryRef => set_query_el (Some e) w
  end.

(** [document.getElementById(id)]: the element, or [null] ([None]). *)
Definition getElementById (id : JSString) : JS (option ElementRef) := λ w,
  let found :=
    if decide (id = lit "results") then (λ _, ResultsRef) <$> results_el w
    else if decide (id = lit "query") then (λ _, QueryRef) <$> query_el w
    else None in
  (Normal found, w).

(** Property access through a reference that may be [null].  The elements of
    the page are never removed, so a non-null reference always finds its
    element. *)
Definition deref (r : option ElementRef) : JS Element := λ w,
  match r ≫= (λ r', element r' w) with
  | Some e => (Normal e, w)
  | None => (Throw TypeErrorNull, w)
  end.

Definition update (r : option ElementRef) (e : Element) : JS unit := λ w,
  match r with
  | Some r' => (Normal (), set_element r' e w)
  | None => (Throw TypeErrorNull, w)
  end.

(** [r.innerHTML = ""]: all children go. *)
Definition set_innerHTML_empty (r : option ElementRef) : JS unit :=
  e ← deref r;
  update r {| children := []; value := value e |}.

(** [r.appendChild(node)] on an element of the page. *)
Definition element_appendChild (r : option ElementRef) (node : Node) : JS unit :=
  e ← deref r;
  update r {| children := children e ++ [node]; value := value e |}.

(** [r.value] *)
Definition get_value (r : option ElementRef) : JS JSString :=
  e ← deref r;
  mret (value e).

(** [r.addEventListener("keypress", listener)] *)
Definition addEventListener_keypress (r : option ElementRef) : JS unit :=
  _ ← deref r;
  modify (set_listening r).

(** [fetch(url, {method, headers, body})]: the request goes out. *)
Definition fetch (u m : JSString) (h : list (JSString * JSString)) (b : JSString)
  : JS unit :=
  modify (λ w,
    set_network (network w ++ [{| url := u; method := m; headers := h; body := b |}]) w).

(** [document.createElement(tag)]: a fresh element outside the document. *)
Definition createElement (tag : JSString) : JS Node :=
  mret (Elem tag [] []).

(** [node.className = c] *)
Definition set_className (node : Node) (c : JSString) : JS Node :=
  mret (match node with
        | Elem tag _ kids => Elem tag c kids
        | Text d => Text d
        end).

(** [parent.appendChild(child)] on a node the script is building. *)
Definition appendChild (parent child : Node) : JS Node :=
  match parent with
  | Elem tag c kids => mret (Elem tag c (kids ++ [child]))
  | Text _ => throw HierarchyRequestError
  end.

(** An own member of a parsed object (the last duplicate wins in the object,
    which does not matter for whether the key is there). *)
Definition has_member (k : JSString) (members : list (JSString * Json)) : bool :=
  existsb (λ m, bool_decide (fst m = k)) members.

(** [ToString] on a parsed value.  A parsed object has no callable member: one
    that has its own "toString" shadows [Object.prototype.toString] with a
    non-function, [valueOf] gives back the object, and the conversion throws.
    An array prints its elements joined with commas, [null] as nothing. *)
Fixpoint ToString_json (j : Json) : Completion JSString :=
  match j with
  | JNull => Normal (lit "null")
  | JBool b => Normal (if b then lit "true" else lit "false")
  | JNumber n => Normal (NumberToString n)
  | JString s => Normal s
  | JArray elements =>
      (fix join (l : list Json) (first : bool) : Completion JSString :=
         match l with
         | [] => Normal []
         | e :: l' =>
             match (match e with JNull => Normal [] | _ => ToString_json e end) with
             | Throw err => Throw err
             | Normal s =>
                 match join l' false with
                 | Throw err => Throw err
                 | Normal t => Normal ((if first then [] else lit ",") ++ s ++ t)
                 end
             end
         end) elements true
  | JObject members =>
      if has_member (lit "toString") members then Throw TypeErrorNotPrimitive
      else Normal (lit "[object Object]")
  end.

Definition ToString (v : Value) : Completion JSString :=
  match v with
  | Undefined => Normal (lit "undefined")
  | FromJson j => ToString_json j
  end.

(** [document.createTextNode(v)]: the argument is converted to a string. *)
Definition createTextNode (v : Value) : JS Node :=
  s ← lift (ToString v);
  mret (Text s).

(** The values an iterator over a parsed value yields: the elements of an
    array, the code points of a string; nothing else parsed is iterable. *)
Definition iterate (v : Json) : Completion (list Json) :=
  match v with
  | JArray elements => Normal elements
  | JString s => Normal (JString <$> code_points s)
  | _ => Throw TypeErrorNotIterable
  end.

Definition element_or_undefined (l : list Json) (i : nat) : Value :=
  match l !! i with
  | Some j => FromJson j
  | None => Undefined
  end.

(** The pattern [[path, rank]] against [entry]: the first two values of its
    iterator, [undefined] where it runs out. *)
Definition destructure (entry : Json) : Completion (Value * Value) :=
  match iterate entry with
  | Normal l => Normal (element_or_undefined l 0, element_or_undefined l 1)
  | Throw e => Throw e
  end.

(** [path] and [rank] are declared nowhere: in a sloppy-mode script the
    assignment creates or overwrites a property of the global object, and a
    later read finds it there. *)
Definition assign_path (v : Value) : JS unit := modify (set_global_path (Some v)).
Definition assign_rank (v : Value) : JS unit := modify (set_global_rank (Some v)).

Definition read_path : JS Value := λ w,
  match global_path w with
  | Some v => (Normal v, w)
  | None => (Throw ReferenceError, w)
  end.
Definition read_rank : JS Value := λ w,
  match global_rank w with
  | Some v => (Normal v, w)
  | None => (Throw ReferenceError, w)
  end.

(** ** The script

    [search] has two [await]s, so it runs in three pieces.  Each piece ends
    with the state the call is left in. *)

(** From the call to [await fetch(...)]. *)
Definition search_begin (prompt : JSString) : JS Activation :=
  requests ← getElementById (lit "results");
  _ ← set_innerHTML_empty requests;
  _ ← fetch (lit "/api/search") (lit "POST")
        [(lit "Content-Type", lit "text/plain")] prompt;
  mret (AwaitFetch requests).

(** From the response to [await response.json()]. *)
Definition search_after_fetch (requests : option ElementRef) : JS Activation :=
  resultList ← createElement (lit "ul");
  resultList ← set_className resultList (lit "result-list");
  mret (AwaitJson requests resultList).

(** One turn of the loop [for ([path, rank] of ...)]. *)
Definition loop_body (resultList : Node) (entry : Json) : JS Node :=
  pr ← lift (destructure entry);
  _ ← assign_path pr.1;
  _ ← assign_rank pr.2;
  item ← createElement (lit "li");

  pathSpan ← createElement (lit "span");
  path ← read_path;
  pathText ← createTextNode path;
  pathSpan ← appendChild pathSpan pathText;
  item ← appendChild item pathSpan;

  space ← createTextNode (FromJson (JString (lit " ")));
  item ← appendChild item space;

  rankSpan ← createElement (lit "span");
  rankSpan ← set_className rankSpan (lit "rank");
  rank ← read_rank;
  rankText ← createTextNode rank;
  rankSpan ← appendChild rankSpan rankText;
  item ← appendChild item rankSpan;

  appendChild resultList item.

Fixpoint for_of (entries : list Json) (resultList : Node) : JS Node :=
  match entries with
  | [] => mret resultList
  | entry :: rest =>
      resultList ← loop_body resultList entry;
      for_of rest resultList
  end.

(** From the parsed body to the end of [search]. *)
Definition search_after_json (requests : option ElementRef) (resultList : Node)
    (parsed : Json) : JS Activation :=
  entries ← lift (iterate parsed);
  resultList ← for_of entries resultList;
  _ ← element_appendChild requests resultList;
  mret Fulfilled.

(** How a piece of an async function ends: at the next [await], at the end of
    the body, or by an exception, which rejects the promise of the call. *)
Definition settle (c : Completion Activation) : Activation :=
  match c with
  | Normal a => a
  | Throw e => Rejected e
  end.

(** The call [search(prompt)].  An async function never throws to its caller:
    it runs to its first [await] and hands back a promise, here the index of
    the call. *)
Definition search (prompt : JSString) : JS nat := λ w,
  let (c, w') := search_begin prompt w in
  (Normal (length (calls w')), set_calls (calls w' ++ [settle c]) w').

(** The event loop continues call [i] with the piece [k]. *)
Definition resume (i : nat) (k : JS Activation) (w : World) : World :=
  let (c, w') := k w in
  set_calls (<[i := settle c]> (calls w')) w'.

(** The keypress listener.  It receives the event object and could change it;
    the result is the event as the listener leaves it. *)
Definition listener (e : KeyboardEvent) : JS KeyboardEvent :=
  if decide (key e = lit "Enter") then
    prompt ← (λ w, get_value (var_query w) w);
    _ ← search prompt;
    mret e
  else mret e.

(** The top level of the script. *)
Definition script : JS unit :=
  query ← getElementById (lit "query");
  _ ← modify (set_var_query query);
  addEventListener_keypress query.

(** ** The hosting page and the event loop *)

Record Page := { page_results : option Element; page_query : option Element }.

Definition initial (p : Page) : World :=
  {| results_el := page_results p; query_el := page_query p; var_query := None;
     listening := None; global_path := None; global_rank := None;
     network := []; calls := []; uncaught := [] |}.

(** An exception that reaches the event loop is reported and the task ends. *)
Definition report (e : Error) (w : World) : World :=
  set_uncaught (uncaught w ++ [e]) w.

(** Loading the page runs the script once. *)
Definition load (p : Page) : World :=
  match script (initial p) with
  | (Normal _, w) => w
  | (Throw e, w) => report e w
  end.

(** What the environment can do next. *)
Inductive Event :=
  | KeyPress (k : JSString)                      (* a key is pressed in the input field *)
  | Typing (text : JSString)                     (* the user edits the input field *)
  | FetchFulfilled (i : nat)                     (* the response of call [i] arrives *)
  | FetchRejected (i : nat) (reason : Error)     (* the request of call [i] fails *)
  | JsonFulfilled (i : nat) (parsed : Json)      (* the body of call [i] is read and parsed *)
  | JsonRejected (i : nat) (reason : Error).     (* the body of call [i] does not parse *)

(** A keypress event on the input field runs the listener if it is there. *)
Definition dispatch_keypress (e : KeyboardEvent) (w : World) : KeyboardEvent * World :=
  match listening w with
  | Some QueryRef =>
      match listener e w with
      | (Normal e', w') => (e', w')
      | (Throw err, w') => (e, report err w')
      end
  | _ => (e, w)
  end.

(** One task of the event loop; [None] when the event cannot happen in [w]
    (no input field to type in, no call waiting for that outcome). *)
Definition step (ev : Event) (w : World) : option World :=
  match ev with
  | KeyPress k =>
      _ ← query_el w;
      Some (dispatch_keypress {| key := k; defaultPrevented := false |} w).2
  | Typing text =>
      e ← query_el w;
      Some (set_query_el (Some {| children := children e; value := text |}) w)
  | FetchFulfilled i =>
      match calls w !! i with
      | Some (AwaitFetch requests) => Some (resume i (search_after_fetch requests) w)
      | _ => None
      end
  | FetchRejected i reason =>
      match calls w !! i with
      | Some (AwaitFetch _) => Some (resume i (throw reason) w)
      | _ => None
      end
  | JsonFulfilled i parsed =>
      match calls w !! i with
      | Some (AwaitJson requests resultList) =>
          Some (resume i (search_after_json requests resultList parsed) w)
      | _ => None
      end
  | JsonRejected i reason =>
      match calls w !! i with
      | Some (AwaitJson _ _) => Some (resume i (throw reason) w)
      | _ => None
      end
  end.

Fixpoint run (evs : list Event) (w : World) : option World :=
  match evs with
  | [] => Some w
  | ev :: rest => w' ← step ev w; run rest w'
  end.

(** ** Observations *)

(** The children of the results container, when the page has one. *)
Definition container (w : World) : option (list Node) :=
  children <$> results_el w.

(** The unhandled rejections: the reasons of the rejected calls. *)
Definition unhandled (w : World) : list Error :=
  omap (λ a, match a with Rejected e => Some e | _ => None end) (calls w).

(** A call that is still waiting for the network. *)
Definition pending (a : Activation) : bool :=
  match a with
  | AwaitFetch _ | AwaitJson _ _ => true
  | _ => false
  end.

(** An event that runs the loop over at least one entry; no other event
    can assign [path] and [rank]. *)
Definition rebinds (ev : Event) : bool :=
  match ev with
  | JsonFulfilled _ parsed =>
      match iterate parsed with
      | Normal (_ :: _) => true
      | _ => false
      end
  | _ => false
  end.

(** The calls whose bodies a sequence of events delivers, in that order. *)
Definition body_order (evs : list Event) : list nat :=
  omap (λ ev, match ev with JsonFulfilled i _ => Some i | _ => None end) evs.

(** ** What the page shows for a response *)

(** The item of one (path, rank) entry, both already as text. *)
Definition item_of (path rank : JSString) : Node :=
  Elem (lit "li") []
    [ Elem (lit "span") [] [Text path];
      Text (lit " ");
      Elem (lit "span") (lit "rank") [Text rank] ].

Definition list_of (items : list Node) : Node :=
  Elem (lit "ul") (lit "result-list") items.

End Model.

Arguments Json : clear implicits.
Arguments Value : clear implicits.
Arguments World : clear implicits.
Arguments Event : clear implicits.
Arguments JS : clear implicits.

(** ** An instance: safe integers

    The integers of magnitude below 2^53 are doubles, [JSON.parse] reads them
    without rounding, and [Number::toString] prints them in plain decimal
    (exponent notation starts at 10^21 only).  The instance is confined to
    them. *)
Record SafeInteger := {
  safe_value : Z;
  safe_bound : (Z.abs safe_value <? 2 ^ 53)%Z = true
}.

#[global] Instance integer_numbers : JSNumber SafeInteger :=
  λ n, lit (NilZero.string_of_int (Z.to_int (safe_value n))).

Definition int_1 : SafeInteger := {| safe_value := 1; safe_bound := eq_refl |}.
Definition int_3 : SafeInteger := {| safe_value := 3; safe_bound := eq_refl |}.

(** ** Well-formed responses

    The entries the search endpoint is meant to send: a path and a rank, the
    rank a number or a string. *)
Inductive Rank (Number : Type) :=
  | RankNumber (n : Number)
  | RankString (s : JSString).
Arguments RankNumber {Number} n.
Arguments RankString {Number} s.

Record ResultEntry (Number : Type) := {
  entry_path : JSString;
  entry_rank : Rank Number
}.
Arguments entry_path {Number} _.
Arguments entry_rank {Number} _.

Section Responses.
Context {Number : Type} `{!JSNumber Number}.

Definition rank_json (r : Rank Number) : Json Number :=
  match r with
  | RankNumber n => JNumber n
  | RankString s => JString s
  end.

Definition rank_text (r : Rank Number) : JSString :=
  match r with
  | RankNumber n => NumberToString n
  | RankString s => s
  end.

(** The two-element array [[path, rank]] of an entry, and the parsed body of
    a response with the given entries. *)
Definition entry_json (e : ResultEntry Number) : Json Number :=
  JArray [JString (entry_path e); rank_json (entry_rank e)].

Definition response_of (es : list (ResultEntry Number)) : Json Number :=
  JArray (entry_json <$> es).

(** The list item the page is to show for an entry. *)
Definition entry_item (e : ResultEntry Number) : Node :=
  item_of (entry_path e) (rank_text (entry_rank e)).

(** The globals after a turn of the loop that destructured [(pth, rnk)]. *)
Definition bind_globals (pth rnk : Value Number) (w : World Number) : World Number :=
  set_global_rank (Some rnk) (set_global_path (Some pth) w).

(** The globals after the loop ran over well-formed entries. *)
Definition last_globals (es : list (ResultEntry Number)) (w : World Number)
  : World Number :=
  match last es with
  | Some e =>
      bind_globals (FromJson (JString (entry_path e)))
        (FromJson (rank_json (entry_rank e))) w
  | None => w
  end.

(** Two worlds that differ at most in the globals [path] and [rank]. *)
Definition only_globals (w w' : World Number) : Prop :=
  ∃ gp gr, w' = set_global_rank gr (set_global_path gp w).

(** The locals of a suspended call on a page with the results container. *)
Definition well_hosted (a : Activation) : Prop :=
  a = AwaitFetch (Some ResultsRef) ∨ a = AwaitJson (Some ResultsRef) (list_of []).

(** What holds of every world that the script reaches on a page [p] with an
    input field: the elements stay, the listener is on the input field, no
    exception reached the event loop, and a suspended call holds the results
    container and, after the response, an empty list of its own. *)
Record inv (p : Page) (w : World Number) : Prop := {
  inv_results : is_Some (results_el w) ↔ is_Some (page_results p);
  inv_query : is_Some (query_el w);
  inv_var : var_query w = Some QueryRef;
  inv_listening : listening w = Some QueryRef;
  inv_uncaught : uncaught w = [];
  inv_calls : Forall (λ a, pending a = true → is_Some (results_el w) ∧ well_hosted a) (calls w)
}.

(** Two searches started one after the other on a loaded page: the calls
    before them, the states of the two new calls, and the children of the
    container. *)
Definition two_calls (p : Page) (base : list Activation) (ca cb : Activation)
    (kids : list Node) (w : World Number) : Prop :=
  inv p w ∧ calls w = base ++ [ca; cb] ∧ container w = Some kids.

(** What one task of the event loop does on a loaded page: the world after
    each event, with the updates written out. *)
Inductive outcome (w : World Number) : Event Number → World Number → Prop :=
  | key_other k :
      k ≠ lit "Enter" →
      outcome w (KeyPress k) w
  | key_enter el :
      query_el w = Some el →
      outcome w (KeyPress (lit "Enter")) (search (value el) w).2
  | typing text el :
      query_el w = Some el →
      outcome w (Typing text)
        (set_query_el (Some {| children := children el; value := text |}) w)
  | fetch_fulfilled i :
      calls w !! i = Some (AwaitFetch (Some ResultsRef)) →
      outcome w (FetchFulfilled i)
        (set_calls (<[i := AwaitJson (Some ResultsRef) (list_of [])]> (calls w)) w)
  | fetch_rejected i reason :
      calls w !! i = Some (AwaitFetch (Some ResultsRef)) →
      outcome w (FetchRejected i reason)
        (set_calls (<[i := Rejected reason]> (calls w)) w)
  | json_rejected i reason :
      calls w !! i = Some (AwaitJson (Some ResultsRef) (list_of [])) →
      outcome w (JsonRejected i reason)
        (set_calls (<[i := Rejected reason]> (calls w)) w)
  | json_not_iterable i parsed e :
      calls w !! i = Some (AwaitJson (Some ResultsRef) (list_of [])) →
      iterate parsed = Throw e →
      outcome w (JsonFulfilled i parsed)
        (set_calls (<[i := Rejected e]> (calls w)) w)
  | json_thrown i parsed e entries gp gr :
      calls w !! i = Some (AwaitJson (Some ResultsRef) (list_of [])) →
      iterate parsed = Normal entries →
      for_of entries (list_of []) w
        = (Throw e, set_global_rank gr (set_global_path gp w)) →
      outcome w (JsonFulfilled i parsed)
        (set_calls (<[i := Rejected e]> (calls w))
           (set_global_rank gr (set_global_path gp w)))
  | json_rendered i parsed el entries ul' gp gr :
      calls w !! i = Some (AwaitJson (Some ResultsRef) (list_of [])) →
      results_el w = Some el →
      iterate parsed = Normal entries →
      for_of entries (list_of []) w
        = (Normal ul', set_global_rank gr (set_global_path gp w)) →
      outcome w (JsonFulfilled i parsed)
        (set_calls (<[i := Fulfilled]> (calls w))
           (set_results_el
              (Some {| children := children el ++ [ul']; value := value el |})
              (set_global_rank gr (set_global_path gp w)))).

End Responses.

(** All the ways two sequences of events can interleave, each keeping its own
    order. *)
Fixpoint merges {A} (l1 : list A) : list A → list (list A) :=
  fix inner (l2 : list A) : list (list A) :=
    match l1, l2 with
    | [], _ => [l2]
    | _, [] => [l1]
    | x :: l1', y :: l2' =>
        ((x ::.) <$> merges l1' l2) ++ ((y ::.) <$> inner l2')
    end.

(** The Enter key press that starts a search. *)
Definition Enter : JSString := lit "Enter".

(** The request a search for [q] sends. *)
Definition search_request (q : JSString) : Request :=
  {| url := lit "/api/search"; method := lit "POST";
     headers := [(lit "Content-Type", lit "text/plain")]; body := q |}.

(** ** Sample pages, responses and histories *)

(** A page with both elements, the container holding an older list. *)
Definition sample_page : Page :=
  {| page_results :=
       Some {| children := [list_of [item_of (lit "old") (lit "9")]]; value := [] |};
     page_query := Some {| children := []; value := lit "needle" |} |}.

(** A page with the input field but without the results container, and a
    page with the container but without the input field. *)
Definition page_without_results : Page :=
  {| page_results := None;
     page_query := Some {| children := []; value := lit "needle" |} |}.

Definition page_without_query : Page :=
  {| page_results := Some {| children := []; value := [] |};
     page_query := None |}.

(** The response [[["a.txt", 3], ["b.txt", 1]]] and a second one,
    [[["c.txt", "7"]]]. *)
Definition sample_entries : list (ResultEntry SafeInteger) :=
  [ {| entry_path := lit "a.txt"; entry_rank := RankNumber int_3 |};
    {| entry_path := lit "b.txt"; entry_rank := RankNumber int_1 |} ].

Definition other_entries : list (ResultEntry SafeInteger) :=
  [ {| entry_path := lit "c.txt"; entry_rank := RankString (lit "7") |} ].

(** A response whose second entry is [null]: [[["a.txt", 3], null]]. *)
Definition malformed_entries : list (Json SafeInteger) :=
  [ JArray [JString (lit "a.txt"); JNumber int_3]; JNull ].

(** The sample page after Enter and the arrival of the response: call 0
    waits for its body. *)
Definition waiting_world : World SafeInteger :=
  Eval vm_compute in
    default (load sample_page)
      (run [KeyPress Enter; FetchFulfilled 0] (load sample_page)).

(** ... and after the body [sample_entries] has been rendered. *)
Definition rendered_world : World SafeInteger :=
  Eval vm_compute in
    default waiting_world
      (step (JsonFulfilled 0 (response_of sample_entries)) waiting_world).

(** Two searches on the sample page, the second started while the first is
    in flight; then the response and the body of the first arrive; then
    those of the second. *)
Definition two_searches : list (Event SafeInteger) :=
  [Typing (lit "a"); KeyPress Enter; Typing (lit "b"); KeyPress Enter].

Definition first_arrives : list (Event SafeInteger) :=
  [FetchFulfilled 0; JsonFulfilled 0 (response_of sample_entries)].

Definition second_arrives : list (Event SafeInteger) :=
  [FetchFulfilled 1; JsonFulfilled 1 (response_of other_entries)].

(** The sample page after the two searches have been started, and the page
    without results after two Enters. *)
Definition two_started_world : World SafeInteger :=
  Eval vm_compute in
    default (load sample_page) (run two_searches (load sample_page)).

Definition twice_rejected_world : World SafeInteger :=
  Eval vm_compute in
    default (load page_without_results)
      (run [KeyPress Enter; Typing (lit "again"); KeyPress Enter]
         (load page_without_results)).

(** ** Histories and the texts of arbitrary entries *)

Section History.
Context {Number : Type} `{!JSNumber Number}.

(** The contents of the input field at each Enter of a history, the field
    holding [v] at its start. *)
Fixpoint entered (evs : list (Event Number)) (v : JSString) : list JSString :=
  match evs with
  | [] => []
  | KeyPress k :: rest =>
      if decide (k = lit "Enter") then v :: entered rest v else entered rest v
  | Typing text :: rest => entered rest text
  | _ :: rest => entered rest v
  end.

(** The two texts a turn of the loop puts on the page for an entry: the
    pattern takes two components, [createTextNode] converts each. *)
Definition entry_texts (entry : Json Number) : Completion (JSString * JSString) :=
  match destructure entry with
  | Throw e => Throw e
  | Normal (pth, rnk) =>
      match ToString pth with
      | Throw e => Throw e
      | Normal ps =>
          match ToString rnk with
          | Throw e => Throw e
          | Normal rs => Normal (ps, rs)
          end
      end
  end.

(** The items of a list of such texts. *)
Definition items_of (texts : list (JSString * JSString)) : list Node :=
  (λ t, item_of t.1 t.2) <$> texts.

(** A row of strings as an entry, and the text the page shows for its
    component [i]: the string, or "undefined" when the row is too short. *)
Definition row_json (row : list JSString) : Json Number :=
  JArray (JString <$> row).

Definition text_at (row : list JSString) (i : nat) : JSString :=
  default (lit "undefined") (row !! i).

End History.

(** * Properties *)

Section Properties.
Context {Number : Type} `{!JSNumber Number}.

Implicit Types (w : World Number) (p : Page) (evs : list (Event Number)).
Implicit Types (ul : Node) (entry parsed : Json Number).

Ltac js_unfold :=
  unfold mbind, mret, JS_bind, JS_ret, lift, throw, modify in *.

(** ** The pieces of [search], one equation each *)

Lemma loop_body_eq ul entry w :
  loop_body ul entry w =
  match destructure entry with
  | Throw e => (Throw e, w)
  | Normal (pth, rnk) =>
      let w' := bind_globals pth rnk w in
      match ToString pth, ToString rnk, ul with
      | Throw e, _, _ => (Throw e, w')
      | Normal _, Throw e, _ => (Throw e, w')
      | Normal ps, Normal rs, Elem tag c kids =>
          (Normal (Elem tag c (kids ++ [item_of ps rs])), w')
      | Normal _, Normal _, Text _ => (Throw HierarchyRequestError, w')
      end
  end.
Proof.
  unfold loop_body, assign_path, assign_rank, read_path, read_rank,
    createTextNode, createElement, set_className, appendChild, bind_globals.
  js_unfold.
  destruct (destructure entry) as [[pth rnk]|e]; [|done]. simpl.
  destruct (ToString pth) as [ps|e]; [|done]. simpl.
  destruct (ToString rnk) as [rs|e]; [|done].
  destruct ul; done.
Qed.

Lemma destructure_entry (e : ResultEntry Number) :
  destructure (entry_json e) =
  Normal (FromJson (JString (entry_path e)), FromJson (rank_json (entry_rank e))).
Proof. done. Qed.

Lemma ToString_rank (r : Rank Number) :
  ToString (FromJson (rank_json r)) = Normal (rank_text r).
Proof. by destruct r. Qed.

(** The loop over well-formed entries: one item each, in order. *)
Lemma for_of_entries (es : list (ResultEntry Number)) tag c kids w :
  for_of (entry_json <$> es) (Elem tag c kids) w =
  (Normal (Elem tag c (kids ++ (entry_item <$> es))), last_globals es w).
Proof.
  revert kids w. induction es as [|e es IH]; intros kids w.
  - simpl. by rewrite app_nil_r.
  - rewrite fmap_cons. simpl for_of. unfold mbind, JS_bind.
    rewrite loop_body_eq, destructure_entry. cbn iota beta zeta.
    rewrite ToString_rank. simpl ToString. cbn iota.
    rewrite IH, <- app_assoc. simpl. f_equal.
    unfold last_globals. destruct es as [|e' es]; [done|].
    rewrite last_cons_cons.
    destruct (last (e' :: es)) eqn:Hlast; [done|by apply last_None in Hlast].
Qed.

Lemma only_globals_refl w : only_globals w w.
Proof. exists (global_path w), (global_rank w). by destruct w. Qed.

Lemma only_globals_trans w1 w2 w3 :
  only_globals w1 w2 → only_globals w2 w3 → only_globals w1 w3.
Proof. intros (gp & gr & ->) (gp' & gr' & ->). by exists gp', gr'. Qed.

Lemma only_globals_bind pth rnk w : only_globals w (bind_globals pth rnk w).
Proof. by exists (Some pth), (Some rnk). Qed.

Lemma loop_body_frame ul entry w c w' :
  loop_body ul entry w = (c, w') → only_globals w w'.
Proof.
  rewrite loop_body_eq.
  destruct (destructure entry) as [[pth rnk]|e].
  - cbn zeta. intros Heq.
    assert (w' = bind_globals pth rnk w) as ->; [|apply only_globals_bind].
    destruct (ToString pth), (ToString rnk), ul; by inversion Heq.
  - intros [= <- <-]. apply only_globals_refl.
Qed.

(** Whatever the entries are, the loop touches nothing but the two globals. *)
Lemma for_of_frame entries ul w c w' :
  for_of entries ul w = (c, w') → only_globals w w'.
Proof.
  revert ul w. induction entries as [|entry rest IH]; intros ul w.
  - intros [= <- <-]. apply only_globals_refl.
  - simpl. unfold mbind, JS_bind.
    destruct (loop_body ul entry w) as [[ul1|e] w1] eqn:Hbody.
    + intros Hrest. eapply only_globals_trans; [by eapply loop_body_frame|by eapply IH].
    + intros [= <- <-]. by eapply loop_body_frame.
Qed.

(** An entry that cannot be destructured stops the loop with an exception. *)
Lemma for_of_throws entries ul w :
  Exists (λ entry, ∃ e, destructure entry = Throw e) entries →
  ∃ e w', for_of entries ul w = (Throw e, w').
Proof.
  intros Hbad. revert ul w.
  induction entries as [|entry rest IH]; intros ul w; [by inversion Hbad|].
  simpl. unfold mbind, JS_bind.
  destruct (loop_body ul entry w) as [[ul1|e] w1] eqn:Hbody; [|by eauto].
  apply Exists_cons in Hbad as [[e He]|Hrest]; [|by apply IH].
  rewrite loop_body_eq, He in Hbody. done.
Qed.

(** A loop that completes over at least one entry leaves the globals at the
    components of the last entry. *)
Lemma for_of_last entries ul w ul' w' :
  for_of entries ul w = (Normal ul', w') →
  match last entries with
  | Some entry =>
      ∃ pth rnk, destructure entry = Normal (pth, rnk) ∧
        global_path w' = Some pth ∧ global_rank w' = Some rnk
  | None => w' = w
  end.
Proof.
  revert ul w. induction entries as [|entry rest IH]; intros ul w.
  - by intros [= <- <-].
  - simpl for_of. unfold mbind, JS_bind.
    destruct (loop_body ul entry w) as [[ul1|e] w1] eqn:Hbody; [|done].
    intros Hrest. specialize (IH _ _ Hrest).
    destruct rest as [|entry' rest].
    2: { rewrite last_cons_cons.
         destruct (last (entry' :: rest)) eqn:Hlast; [done|by apply last_None in Hlast]. }
    simpl in *. subst w'. rewrite loop_body_eq in Hbody.
    destruct (destructure entry) as [[pth rnk]|e]; [|done].
    exists pth, rnk. cbn zeta in Hbody.
    destruct (ToString pth), (ToString rnk), ul; by inversion Hbody.
Qed.

Lemma getElementById_results w :
  getElementById (lit "results") w = (Normal ((λ _, ResultsRef) <$> results_el w), w).
Proof. unfold getElementById. by rewrite decide_True. Qed.

Lemma getElementById_query w :
  getElementById (lit "query") w = (Normal ((λ _, QueryRef) <$> query_el w), w).
Proof.
  unfold getElementById. rewrite decide_False, decide_True; [done..|].
  intros Heq. vm_compute in Heq. discriminate.
Qed.

Lemma search_begin_eq q w :
  search_begin q w =
  match results_el w with
  | Some el =>
      (Normal (AwaitFetch (Some ResultsRef)),
       set_network (network w ++ [search_request q])
         (set_results_el (Some {| children := []; value := value el |}) w))
  | None => (Throw TypeErrorNull, w)
  end.
Proof.
  unfold search_begin, mbind, JS_bind. rewrite getElementById_results.
  unfold set_innerHTML_empty, deref, update, fetch. js_unfold.
  by destruct (results_el w) as [el|] eqn:Hel; simpl; rewrite ?Hel.
Qed.

(** The call [search(q)]: with a results container it clears it, sends the
    request and suspends; without one it is rejected on the spot. *)
Lemma search_eq q w :
  search q w =
  (Normal (length (calls w)),
   match results_el w with
   | Some el =>
       set_calls (calls w ++ [AwaitFetch (Some ResultsRef)])
         (set_network (network w ++ [search_request q])
            (set_results_el (Some {| children := []; value := value el |}) w))
   | None => set_calls (calls w ++ [Rejected TypeErrorNull]) w
   end).
Proof. unfold search. rewrite search_begin_eq. by destruct (results_el w). Qed.

Lemma search_after_fetch_eq r w :
  search_after_fetch r w = (Normal (AwaitJson r (list_of [])), w).
Proof. done. Qed.

Lemma search_after_json_eq ul parsed w :
  search_after_json (Some ResultsRef) ul parsed w =
  match iterate parsed with
  | Throw e => (Throw e, w)
  | Normal entries =>
      match for_of entries ul w with
      | (Throw e, w1) => (Throw e, w1)
      | (Normal ul', w1) =>
          match results_el w1 with
          | Some el =>
              (Normal Fulfilled,
               set_results_el
                 (Some {| children := children el ++ [ul']; value := value el |}) w1)
          | None => (Throw TypeErrorNull, w1)
          end
      end
  end.
Proof.
  unfold search_after_json, element_appendChild, deref, update. js_unfold.
  destruct (iterate parsed) as [entries|e]; [|done].
  destruct (for_of entries ul w) as [[ul'|e] w1]; [|done].
  simpl. by destruct (results_el w1).
Qed.

(** The listener on a loaded page. *)
Lemma listener_eq e el w :
  query_el w = Some el → var_query w = Some QueryRef →
  listener e w =
  (Normal e, if decide (key e = Enter) then (search (value el) w).2 else w).
Proof.
  intros Hel Hvar. unfold listener, Enter.
  destruct (decide (key e = lit "Enter")); [|done].
  unfold get_value, deref. js_unfold. rewrite Hvar. simpl. rewrite Hel.
  by rewrite search_eq.
Qed.

Lemma step_keypress k el w :
  query_el w = Some el → var_query w = Some QueryRef →
  listening w = Some QueryRef →
  step (KeyPress k) w =
  Some (if decide (k = Enter) then (search (value el) w).2 else w).
Proof.
  intros Hel Hvar Hlis. unfold step, dispatch_keypress.
  rewrite Hel, Hlis. simpl.
  by rewrite (listener_eq _ el).
Qed.

(** Delivering a parsed body to a call that waits for it: either the call is
    rejected and only the globals may have changed, or it is fulfilled and the
    list it built is the new last child of the container. *)
Lemma step_json i ul el parsed w :
  calls w !! i = Some (AwaitJson (Some ResultsRef) ul) →
  results_el w = Some el →
  ∃ w1, only_globals w w1 ∧
    ((∃ e, step (JsonFulfilled i parsed) w
             = Some (set_calls (<[i := Rejected e]> (calls w)) w1) ∧
           (iterate parsed = Throw e ∧ w1 = w ∨
            ∃ entries, iterate parsed = Normal entries ∧
                       for_of entries ul w = (Throw e, w1))) ∨
     (∃ entries ul',
        iterate parsed = Normal entries ∧
        for_of entries ul w = (Normal ul', w1) ∧
        step (JsonFulfilled i parsed) w
          = Some (set_calls (<[i := Fulfilled]> (calls w))
                    (set_results_el
                       (Some {| children := children el ++ [ul']; value := value el |})
                       w1)))).
Proof.
  intros Hi Hel. unfold step, resume. rewrite Hi, search_after_json_eq.
  destruct (iterate parsed) as [entries|e].
  - destruct (for_of entries ul w) as [[ul'|e] w1] eqn:Hloop.
    + exists w1. pose proof (for_of_frame _ _ _ _ _ Hloop) as Hframe.
      split; [done|]. right. exists entries, ul'.
      destruct Hframe as (gp & gr & ->). simpl. by rewrite Hel.
    + exists w1. pose proof (for_of_frame _ _ _ _ _ Hloop) as Hframe.
      split; [done|]. left. exists e.
      destruct Hframe as (gp & gr & ->). simpl. eauto.
  - exists w. split; [apply only_globals_refl|]. left. exists e. eauto.
Qed.

(** ** The invariant of the loaded script *)

Lemma load_eq p :
  load p =@{World Number}
  match page_query p with
  | Some _ =>
      set_listening (Some QueryRef) (set_var_query (Some QueryRef) (initial p))
  | None => report TypeErrorNull (set_var_query None (initial p))
  end.
Proof.
  unfold load, script, mbind, JS_bind. rewrite getElementById_query.
  unfold addEventListener_keypress, deref. js_unfold. simpl.
  by destruct (page_query p) eqn:Hq; simpl; rewrite ?Hq.
Qed.

Lemma inv_load p : is_Some (page_query p) → inv (Number:=Number) p (load p).
Proof.
  intros [el Hel]. rewrite load_eq, Hel.
  split; by simpl.
Qed.

Lemma inv_search p q w : inv p w → inv p (search q w).2.
Proof.
  intros [Hres Hq Hvar Hlis Hunc Hcalls]. rewrite search_eq. simpl.
  destruct (results_el w) as [rel|] eqn:Hrel; split; simpl; try done.
  - rewrite <- Hres. split; eauto.
  - apply Forall_app. split.
    + eapply Forall_impl; [done|]. simpl. intros a Ha Hp. split; [eauto|by apply Ha].
    + apply Forall_singleton. intros _. split; [done|by left].
  - rewrite Hrel. exact Hres.
  - rewrite Hrel. apply Forall_app. split; [done|by apply Forall_singleton].
Qed.

Lemma inv_step p ev w w' : inv p w → step ev w = Some w' → inv p w'.
Proof.
  intros Hinv Hstep.
  pose proof Hinv as [Hres [el Hel] Hvar Hlis Hunc Hcalls].
  destruct ev as [k|text|i|i reason|i parsed|i reason].
  - rewrite (step_keypress _ el) in Hstep by done.
    destruct (decide (k = Enter)); simplify_eq; [by apply inv_search|done].
  - unfold step in Hstep. rewrite Hel in Hstep. simpl in Hstep. simplify_eq.
    split; simpl; eauto.
  - simpl in Hstep.
    destruct (calls w !! i) as [[r| | |]|] eqn:Hi; simplify_eq.
    unfold resume. rewrite search_after_fetch_eq. split; simpl; try done.
    apply Forall_insert; [done|].
    pose proof (Forall_lookup_1 _ _ _ _ Hcalls Hi eq_refl) as [? [?|?]]; simplify_eq.
    intros _. split; [done|by right].
  - simpl in Hstep.
    destruct (calls w !! i) as [[r| | |]|] eqn:Hi; simplify_eq.
    unfold resume, throw. split; simpl; try done.
    by apply Forall_insert.
  - destruct (calls w !! i) as [[|r ul| |]|] eqn:Hi;
      try (by unfold step in Hstep; rewrite Hi in Hstep).
    pose proof (Forall_lookup_1 _ _ _ _ Hcalls Hi eq_refl) as [[rel Hrel] [?|?]];
      simplify_eq.
    destruct (step_json i (list_of []) rel parsed w Hi Hrel)
      as (w1 & (gp & gr & ->) & [(e & Hs & _)|(entries & ul' & _ & _ & Hs)]);
      rewrite Hs in Hstep; simplify_eq; split; simpl; try done.
    + by apply Forall_insert.
    + by rewrite <- Hres, Hrel.
    + apply Forall_insert; [|done].
      eapply Forall_impl; [done|]. simpl. intros a Ha Hp. split; [eauto|by apply Ha].
  - simpl in Hstep.
    destruct (calls w !! i) as [[|r ul| |]|] eqn:Hi; simplify_eq.
    unfold resume, throw. split; simpl; try done.
    by apply Forall_insert.
Qed.

Lemma inv_run p evs w w' : inv p w → run evs w = Some w' → inv p w'.
Proof.
  revert w. induction evs as [|ev evs IH]; intros w Hinv; simpl.
  - by intros [= <-].
  - destruct (step ev w) as [w1|] eqn:Hstep; [|done]. simpl.
    eauto using inv_step.
Qed.

Lemma run_app evs evs' w : run (evs ++ evs') w = run evs w ≫= run evs'.
Proof.
  revert w. induction evs as [|ev evs IH]; intros w; [done|].
  simpl. destruct (step ev w); [apply IH|done].
Qed.

Lemma run_snoc evs ev w w1 w2 :
  run evs w = Some w1 → step ev w1 = Some w2 → run (evs ++ [ev]) w = Some w2.
Proof. intros Hrun Hstep. rewrite run_app, Hrun. simpl. by rewrite Hstep. Qed.

(** Every world the script reaches on a page with an input field. *)
Lemma inv_reach p evs w :
  is_Some (page_query p) → run evs (load p) = Some w → inv p w.
Proof. eauto using inv_run, inv_load. Qed.

(** One task on a loaded page, by cases. *)
Lemma step_outcome p ev w w' : inv p w → step ev w = Some w' → outcome w ev w'.
Proof.
  intros [Hres [el Hel] Hvar Hlis Hunc Hcalls] Hstep.
  destruct ev as [k|text|i|i reason|i parsed|i reason].
  - rewrite (step_keypress _ el) in Hstep by done. unfold Enter in Hstep.
    destruct (decide (k = lit "Enter")) as [->|]; simplify_eq.
    + by apply key_enter.
    + by apply key_other.
  - unfold step in Hstep. rewrite Hel in Hstep. simpl in Hstep. simplify_eq.
    by apply typing.
  - destruct (calls w !! i) as [[r| | |]|] eqn:Hi;
      try (by unfold step in Hstep; rewrite Hi in Hstep).
    pose proof (Forall_lookup_1 _ _ _ _ Hcalls Hi eq_refl) as [_ [?|?]]; simplify_eq.
    unfold step in Hstep. rewrite Hi in Hstep. unfold resume in Hstep.
    rewrite search_after_fetch_eq in Hstep. simplify_eq. by apply fetch_fulfilled.
  - destruct (calls w !! i) as [[r| | |]|] eqn:Hi;
      try (by unfold step in Hstep; rewrite Hi in Hstep).
    pose proof (Forall_lookup_1 _ _ _ _ Hcalls Hi eq_refl) as [_ [?|?]]; simplify_eq.
    unfold step in Hstep. rewrite Hi in Hstep. unfold resume, throw in Hstep.
    simplify_eq. by apply fetch_rejected.
  - destruct (calls w !! i) as [[|r ul| |]|] eqn:Hi;
      try (by unfold step in Hstep; rewrite Hi in Hstep).
    pose proof (Forall_lookup_1 _ _ _ _ Hcalls Hi eq_refl) as [[rel Hrel] [?|?]];
      simplify_eq.
    destruct (step_json i (list_of []) rel parsed w Hi Hrel)
      as (w1 & (gp & gr & ->) & [(e & Hs & Hwhy)|(entries & ul' & Hit & Hloop & Hs)]);
      rewrite Hs in Hstep; simplify_eq.
    + destruct Hwhy as [[Hit Hw]|(entries & Hit & Hloop)].
      * rewrite Hw. by apply json_not_iterable.
      * by eapply json_thrown.
    + by eapply json_rendered.
  - destruct (calls w !! i) as [[|r ul| |]|] eqn:Hi;
      try (by unfold step in Hstep; rewrite Hi in Hstep).
    pose proof (Forall_lookup_1 _ _ _ _ Hcalls Hi eq_refl) as [_ [?|?]]; simplify_eq.
    unfold step in Hstep. rewrite Hi in Hstep. unfold resume, throw in Hstep.
    simplify_eq. by apply json_rejected.
Qed.

(** ** Frame properties of the tasks *)

(** Only a key press sends a request. *)
Lemma step_network p ev w w' :
  inv p w → step ev w = Some w' → (∀ k, ev ≠ KeyPress k) →
  network w' = network w.
Proof.
  intros Hinv Hstep Hev.
  destruct (step_outcome _ _ _ _ Hinv Hstep); try done; by edestruct Hev.
Qed.

Lemma run_network p evs w w' :
  inv p w → run evs w = Some w' → Forall (λ ev, ∀ k, ev ≠ KeyPress k) evs →
  network w' = network w.
Proof.
  revert w. induction evs as [|ev evs IH]; intros w Hinv; simpl.
  - by intros [= <-].
  - destruct (step ev w) as [w1|] eqn:Hstep; [|done]. simpl.
    intros Hrun [Hev Hevs]%Forall_cons.
    rewrite (IH w1), (step_network p ev w); eauto using inv_step.
Qed.

(** ** The request *)

(** C2: for every query string [q], the empty one included, a call
    [search(q)] on a page with the results container issues exactly one
    request: a POST to /api/search with the header Content-Type: text/plain
    and the body [q] as it is.  From the call on, whatever the event loop
    delivers next short of another key press, the network log of the page has
    grown by that one request. *)
Theorem search_issues_one_request p evs w q evs' w' :
  is_Some (page_results p) → is_Some (page_query p) →
  run evs (load p) = Some w →
  Forall (λ ev, ∀ k, ev ≠ KeyPress k) evs' →
  run evs' (search q w).2 = Some w' →
  network w' =
  network w ++
    [{| url := lit "/api/search"; method := lit "POST";
        headers := [(lit "Content-Type", lit "text/plain")]; body := q |}].
Proof.
  intros Hres Hq Hreach Hevs Hrun.
  pose proof (inv_reach _ _ _ Hq Hreach) as Hinv.
  rewrite (run_network p evs' (search q w).2 w') by eauto using inv_search.
  rewrite search_eq. simpl.
  apply (inv_results _ _ Hinv) in Hres as [rel ->]. done.
Qed.

(** ** The listener *)

(** C6: a keypress event on the input field whose key is Enter calls [search]
    with the value the field has at that moment; for every other key the
    listener changes nothing: the world (page, globals, network log, calls)
    is the same, and the event object comes back as it went in, its
    [defaultPrevented] flag included. *)
Theorem keypress_listener p evs w el e :
  is_Some (page_query p) →
  run evs (load p) = Some w →
  query_el w = Some el →
  (key e = Enter → dispatch_keypress e w = (e, (search (value el) w).2)) ∧
  (key e ≠ Enter → dispatch_keypress e w = (e, w)).
Proof.
  intros Hq Hreach Hel.
  destruct (inv_reach _ _ _ Hq Hreach) as [_ _ Hvar Hlis _ _].
  unfold dispatch_keypress. rewrite Hlis, (listener_eq _ el) by done.
  split; intros Hkey; [by rewrite decide_True|by rewrite decide_False].
Qed.

(** ** Missing elements *)

(** C5 (amended): a page without the element "query" stops the script at
    load time, with a TypeError on [null] and no listener registered.  A page
    with "query" loads without an exception and with the listener in place,
    whether or not it has the element "results"; without "results" every call
    of [search] is rejected at once with a TypeError on [null], before any
    request is sent. *)
Theorem missing_elements p :
  (page_query p = None →
     uncaught (load (Number:=Number) p) = [TypeErrorNull] ∧
     listening (load (Number:=Number) p) = None) ∧
  (is_Some (page_query p) →
     uncaught (load (Number:=Number) p) = [] ∧
     listening (load (Number:=Number) p) = Some QueryRef ∧
     (page_results p = None →
      ∀ evs w q, run evs (load p) = Some w →
        calls (search q w).2 = calls w ++ [Rejected TypeErrorNull] ∧
        network (search q w).2 = network w ∧
        uncaught (search q w).2 = [])).
Proof.
  split.
  - intros Hq. by rewrite load_eq, Hq.
  - intros Hq. pose proof (inv_load p Hq) as Hinv.
    split; [apply Hinv|]. split; [apply Hinv|].
    intros Hres evs w q Hreach.
    destruct (inv_reach _ _ _ Hq Hreach) as [Hr _ _ _ Hunc _].
    rewrite search_eq. simpl.
    destruct (results_el w) as [rel|] eqn:Hrel; [|done].
    rewrite Hres in Hr. by destruct Hr as [[? ?] _].
Qed.

(** ** One search from the key press to the body *)

Lemma lookup_snoc_length {A} (l : list A) x : (l ++ [x]) !! length l = Some x.
Proof. by apply list_lookup_middle. Qed.

Lemma insert_snoc_length {A} (l : list A) x y : <[length l := y]> (l ++ [x]) = l ++ [y].
Proof. rewrite insert_app_r_alt, Nat.sub_diag; [done|lia]. Qed.

(** Enter on a page with both elements: the container is empty and the new
    call waits for the response. *)
Lemma enter_search p w :
  inv p w → is_Some (page_results p) →
  ∃ w1,
    step (KeyPress Enter) w = Some w1 ∧
    inv p w1 ∧
    container w1 = Some [] ∧
    calls w1 = calls w ++ [AwaitFetch (Some ResultsRef)] ∧
    query_el w1 = query_el w ∧
    global_path w1 = global_path w ∧ global_rank w1 = global_rank w ∧
    network w1 = network w ++ (search_request ∘ value <$> option_list (query_el w)).
Proof.
  intros Hinv Hres.
  pose proof Hinv as [Hr [el Hel] Hvar Hlis Hunc Hcalls].
  apply Hr in Hres as [rel Hrel].
  assert (step (KeyPress Enter) w = Some (search (value el) w).2) as Hkey.
  { rewrite (step_keypress _ el) by done. by rewrite decide_True. }
  exists (search (value el) w).2. split; [done|].
  split; [by apply inv_search|]. rewrite search_eq, Hrel, Hel. done.
Qed.

(** While no body is delivered, an empty container stays empty. *)
Lemma step_stays_cleared p ev w w' :
  inv p w → step ev w = Some w' → (∀ j v, ev ≠ JsonFulfilled j v) →
  container w = Some [] → container w' = Some [].
Proof.
  intros Hinv Hstep Hev Hc.
  destruct (step_outcome _ _ _ _ Hinv Hstep); try done; try (by edestruct Hev).
  rewrite search_eq. unfold container in *. by destruct (results_el w).
Qed.

Lemma run_stays_cleared p evs w w' :
  inv p w → run evs w = Some w' →
  Forall (λ ev, ∀ j v, ev ≠ JsonFulfilled j v) evs →
  container w = Some [] → container w' = Some [].
Proof.
  revert w. induction evs as [|ev evs IH]; intros w Hinv; simpl.
  - by intros [= <-].
  - destruct (step ev w) as [w1|] eqn:Hstep; [|done]. simpl.
    intros Hrun [Hev Hevs]%Forall_cons Hc.
    apply (IH w1); eauto using inv_step, step_stays_cleared.
Qed.

(** Enter on a page with both elements, then the response: the container is
    empty, the new call waits for the body with an empty list of its own, and
    nothing else has changed but the network log. *)
Lemma start_search p w :
  inv p w → is_Some (page_results p) →
  ∃ w2,
    run [KeyPress Enter; FetchFulfilled (length (calls w))] w = Some w2 ∧
    inv p w2 ∧
    container w2 = Some [] ∧
    calls w2 = calls w ++ [AwaitJson (Some ResultsRef) (list_of [])] ∧
    query_el w2 = query_el w ∧
    global_path w2 = global_path w ∧ global_rank w2 = global_rank w.
Proof.
  intros Hinv Hres.
  pose proof Hinv as [Hr [el Hel] Hvar Hlis Hunc Hcalls].
  apply Hr in Hres as [rel Hrel].
  assert (step (KeyPress Enter) w = Some (search (value el) w).2) as Hkey.
  { rewrite (step_keypress _ el) by done. by rewrite decide_True. }
  revert Hkey. rewrite search_eq, Hrel. cbn [snd]. intros Hkey.
  assert (run [KeyPress Enter; FetchFulfilled (length (calls w))] w =
          Some (set_calls (calls w ++ [AwaitJson (Some ResultsRef) (list_of [])])
                  (set_network (network w ++ [search_request (value el)])
                     (set_results_el
                        (Some {| children := []; value := value rel |}) w))))
    as Hrun.
  { cbn [run]. rewrite Hkey. cbn [mbind option_bind].
    unfold step. cbn [calls set_calls]. rewrite lookup_snoc_length.
    unfold resume. rewrite search_after_fetch_eq. cbn [calls set_calls].
    by rewrite insert_snoc_length. }
  eexists. split; [exact Hrun|]. split; [by eapply inv_run|done].
Qed.

(** Delivering a well-formed response to a call that waits for its body. *)
Lemma render_step p w i r ul (es : list (ResultEntry Number)) :
  inv p w → calls w !! i = Some (AwaitJson r ul) →
  ∃ w' el,
    step (JsonFulfilled i (response_of es)) w = Some w' ∧
    inv p w' ∧
    results_el w = Some el ∧
    results_el w' =
      Some {| children := children el ++ [list_of (entry_item <$> es)];
              value := value el |} ∧
    calls w' = <[i := Fulfilled]> (calls w) ∧
    query_el w' = query_el w.
Proof.
  intros Hinv Hi.
  pose proof (Forall_lookup_1 _ _ _ _ (inv_calls _ _ Hinv) Hi eq_refl)
    as [[el Hel] [?|?]]; simplify_eq.
  destruct (step_json i (list_of []) el (response_of es) w Hi Hel)
    as (w1 & _ & [(e & Hs & Hwhy)|(entries & ul' & Hit & Hloop & Hs)]).
  - destruct Hwhy as [[? _]|(entries & Hit & Hloop)]; [done|].
    simpl in Hit. simplify_eq. unfold list_of in Hloop.
    by rewrite for_of_entries in Hloop.
  - simpl in Hit. simplify_eq. unfold list_of in Hloop.
    rewrite for_of_entries in Hloop. simplify_eq.
    eexists _, el. split; [exact Hs|].
    split; [by eapply inv_step|]. unfold last_globals. by destruct (last es).
Qed.

(** Delivering an array with an entry that cannot be destructured. *)
Lemma throw_step p w i r ul entries :
  inv p w → calls w !! i = Some (AwaitJson r ul) →
  Exists (λ entry, ∃ e, destructure entry = Throw e) entries →
  ∃ w' e,
    step (JsonFulfilled i (JArray entries)) w = Some w' ∧
    inv p w' ∧
    results_el w' = results_el w ∧
    calls w' = <[i := Rejected e]> (calls w) ∧
    query_el w' = query_el w.
Proof.
  intros Hinv Hi Hbad.
  pose proof (Forall_lookup_1 _ _ _ _ (inv_calls _ _ Hinv) Hi eq_refl)
    as [[el Hel] [?|?]]; simplify_eq.
  destruct (for_of_throws entries (list_of []) w Hbad) as (e0 & w0 & Hthrow).
  destruct (step_json i (list_of []) el (JArray entries) w Hi Hel)
    as (w1 & (gp & gr & ->) & [(e & Hs & Hwhy)|(entries' & ul' & Hit & Hloop & Hs)]).
  - eexists _, e. split; [exact Hs|]. split; [by eapply inv_step|]. done.
  - simpl in Hit. simplify_eq. by rewrite Hthrow in Hloop.
Qed.

Lemma throw_step_frame p w i entries w' :
  inv p w → step (JsonFulfilled i (JArray entries)) w = Some w' →
  Exists (λ entry, ∃ e, destructure entry = Throw e) entries →
  container w' = container w ∧ ∃ e, calls w' !! i = Some (Rejected e).
Proof.
  intros Hinv Hstep Hbad.
  destruct (calls w !! i) as [[|r ul| |]|] eqn:Hi;
    try (by unfold step in Hstep; rewrite Hi in Hstep).
  destruct (throw_step p w i r ul entries Hinv Hi Hbad)
    as (w'' & e & Hs & _ & Hel & Hcalls & _).
  rewrite Hstep in Hs. injection Hs as <-.
  unfold container. rewrite Hel, Hcalls. split; [done|]. exists e.
  apply list_lookup_insert_eq. by eapply lookup_lt_Some.
Qed.

(** A whole search with a well-formed response, nothing else happening in
    between. *)
Lemma render_run p w (es : list (ResultEntry Number)) :
  inv p w → is_Some (page_results p) →
  ∃ w', run [KeyPress Enter;
             FetchFulfilled (length (calls w));
             JsonFulfilled (length (calls w)) (response_of es)] w = Some w' ∧
        container w' = Some [list_of (entry_item <$> es)] ∧
        calls w' !! length (calls w) = Some Fulfilled.
Proof.
  intros Hinv Hres.
  destruct (start_search p w Hinv Hres)
    as (w2 & Hrun & Hinv2 & Hcont & Hcalls & _).
  destruct (render_step p w2 (length (calls w)) (Some ResultsRef) (list_of []) es
              Hinv2) as (w' & el & Hs & _ & Hel & Hel' & Hcalls' & _).
  { rewrite Hcalls. apply lookup_snoc_length. }
  exists w'. split; [|split].
  - by apply (run_snoc [_; _] _ _ w2).
  - unfold container in *. rewrite Hel in Hcont. rewrite Hel'.
    injection Hcont as Hkids. simpl. by rewrite Hkids.
  - rewrite Hcalls', Hcalls. by rewrite insert_snoc_length, lookup_snoc_length.
Qed.

(** A whole search whose response has an entry that cannot be destructured. *)
Lemma throw_run p w entries :
  inv p w → is_Some (page_results p) →
  Exists (λ entry, ∃ e, destructure entry = Throw e) entries →
  ∃ w' e, run [KeyPress Enter;
               FetchFulfilled (length (calls w));
               JsonFulfilled (length (calls w)) (JArray entries)] w = Some w' ∧
          container w' = Some [] ∧
          calls w' !! length (calls w) = Some (Rejected e).
Proof.
  intros Hinv Hres Hbad.
  destruct (start_search p w Hinv Hres)
    as (w2 & Hrun & Hinv2 & Hcont & Hcalls & _).
  destruct (throw_step p w2 (length (calls w)) (Some ResultsRef) (list_of [])
              entries Hinv2) as (w' & e & Hs & _ & Hel' & Hcalls' & _); [|done|].
  { rewrite Hcalls. apply lookup_snoc_length. }
  exists w', e. split; [|split].
  - by apply (run_snoc [_; _] _ _ w2).
  - unfold container in *. by rewrite Hel'.
  - rewrite Hcalls', Hcalls. by rewrite insert_snoc_length, lookup_snoc_length.
Qed.

(** ** Rendering *)

(** C1: for every response with well-formed entries, what [search] renders is
    exactly the entries of the response, in the order of the response, none
    skipped, moved or merged: one [li] per entry holding a span with the text
    of the path, a text node with one space, and a span of class "rank" with
    the text of the rank; all of them in one [ul] of class "result-list",
    which is appended once to the results container.  First for a call that
    waits for its body in any world the script reaches: the container gains
    that one list as its last child.  Then for a search from the key press
    on: the container ends up holding that list and nothing else. *)
Theorem search_renders_response p evs w (es : list (ResultEntry Number)) :
  is_Some (page_results p) → is_Some (page_query p) →
  run evs (load p) = Some w →
  (∀ i r ul, calls w !! i = Some (AwaitJson r ul) →
     ∃ w', step (JsonFulfilled i (response_of es)) w = Some w' ∧
           container w' =
             (λ kids, kids ++ [list_of (entry_item <$> es)]) <$> container w ∧
           calls w' !! i = Some Fulfilled) ∧
  (∃ w', run [KeyPress Enter;
              FetchFulfilled (length (calls w));
              JsonFulfilled (length (calls w)) (response_of es)] w = Some w' ∧
         container w' = Some [list_of (entry_item <$> es)] ∧
         calls w' !! length (calls w) = Some Fulfilled).
Proof.
  intros Hres Hq Hreach. pose proof (inv_reach _ _ _ Hq Hreach) as Hinv. split.
  - intros i r ul Hi.
    destruct (render_step p w i r ul es Hinv Hi)
      as (w' & el & Hs & _ & Hel & Hel' & Hcalls & _).
    exists w'. split; [done|]. unfold container. rewrite Hel, Hel', Hcalls.
    split; [done|]. apply list_lookup_insert_eq. by eapply lookup_lt_Some.
  - by apply (render_run p).
Qed.

(** C7: when the body parses to the empty array, the search appends to the
    results container a [ul] of class "result-list" without any [li] in it. *)
Theorem empty_response_renders_empty_list p evs w :
  is_Some (page_results p) → is_Some (page_query p) →
  run evs (load p) = Some w →
  ∃ w', run [KeyPress Enter;
             FetchFulfilled (length (calls w));
             JsonFulfilled (length (calls w)) (JArray [])] w = Some w' ∧
        container w' = Some [Elem (lit "ul") (lit "result-list") []] ∧
        calls w' !! length (calls w) = Some Fulfilled.
Proof.
  intros Hres Hq Hreach. pose proof (inv_reach _ _ _ Hq Hreach) as Hinv.
  apply (render_run p w [] Hinv Hres).
Qed.

(** C9: rendering is all or nothing.  When some entry of the parsed array
    cannot be destructured (it is not iterable: [null], a number, a boolean,
    an object), the loop throws, the call is rejected, and no list is
    appended: a call that waits for its body leaves the container as it was,
    and a search from the key press on leaves it empty, however many
    well-formed entries came before the malformed one.  The container is
    still empty after the malformed body whatever happened since the key
    press, as long as no other body was delivered. *)
Theorem malformed_entry_renders_nothing p evs w entries :
  is_Some (page_results p) → is_Some (page_query p) →
  run evs (load p) = Some w →
  Exists (λ entry, ∃ e, destructure entry = Throw e) entries →
  (∀ i r ul, calls w !! i = Some (AwaitJson r ul) →
     ∃ w' e, step (JsonFulfilled i (JArray entries)) w = Some w' ∧
             container w' = container w ∧
             calls w' !! i = Some (Rejected e)) ∧
  (∃ w' e, run [KeyPress Enter;
                FetchFulfilled (length (calls w));
                JsonFulfilled (length (calls w)) (JArray entries)] w = Some w' ∧
           container w' = Some [] ∧
           calls w' !! length (calls w) = Some (Rejected e)) ∧
  (∀ w1 evs' w2 i w3,
     step (KeyPress Enter) w = Some w1 →
     Forall (λ ev, ∀ j v, ev ≠ JsonFulfilled j v) evs' →
     run evs' w1 = Some w2 →
     step (JsonFulfilled i (JArray entries)) w2 = Some w3 →
     container w3 = Some [] ∧ ∃ e, calls w3 !! i = Some (Rejected e)).
Proof.
  intros Hres Hq Hreach Hbad. pose proof (inv_reach _ _ _ Hq Hreach) as Hinv.
  split; [|split].
  - intros i r ul Hi.
    destruct (throw_step p w i r ul entries Hinv Hi Hbad)
      as (w' & e & Hs & _ & Hel' & Hcalls & _).
    exists w', e. split; [done|]. unfold container. rewrite Hel', Hcalls.
    split; [done|]. apply list_lookup_insert_eq. by eapply lookup_lt_Some.
  - by apply (throw_run p).
  - intros w1 evs' w2 i w3 Hkey Hquiet Hrun Hstep.
    destruct (enter_search p w Hinv Hres) as (w1' & Hkey' & Hinv1 & Hcont & _).
    rewrite Hkey in Hkey'. injection Hkey' as <-.
    pose proof (inv_run _ _ _ _ Hinv1 Hrun) as Hinv2.
    destruct (throw_step_frame p w2 i entries w3 Hinv2 Hstep Hbad) as [-> He].
    split; [by apply (run_stays_cleared p evs' w1 w2)|done].
Qed.

(** ** Failures *)

Lemma unhandled_lookup w i e :
  calls w !! i = Some (Rejected e) → e ∈ unhandled w.
Proof.
  intros Hi. apply list_elem_of_omap. exists (Rejected e).
  split; [by eapply list_elem_of_lookup_2|done].
Qed.

(** A rejected promise continues the call with a throw: the call is rejected
    and nothing else changes. *)
Lemma step_fetch_rejected w i r reason :
  calls w !! i = Some (AwaitFetch r) →
  step (FetchRejected i reason) w
    = Some (set_calls (<[i := Rejected reason]> (calls w)) w).
Proof. intros Hi. unfold step. by rewrite Hi. Qed.

Lemma step_json_rejected w i r ul reason :
  calls w !! i = Some (AwaitJson r ul) →
  step (JsonRejected i reason) w
    = Some (set_calls (<[i := Rejected reason]> (calls w)) w).
Proof. intros Hi. unfold step. by rewrite Hi. Qed.

(** C4 (amended): a search whose request fails, or whose response body is
    not valid JSON, fails without a trace of its own on the page.  The
    listener that started it returns normally; the call is rejected with the
    reason of the failure and nothing handles the rejection; no exception
    reaches the event loop.  In any world the script reaches, the task that
    delivers such a failure to a waiting call changes nothing but the state of
    that call: it appends no list and shows no message.  For a search on its
    own (Enter, then the failure) the results container, cleared when the
    search began, is still without children and the input field is as it was;
    and in general, after the key press the container stays without children
    through everything that happens, failures included, as long as no body is
    delivered.  (With another search in flight, the list of that search can
    be in the container when this one fails.) *)
Theorem failed_search_leaves_container_empty p evs w reason :
  is_Some (page_results p) → is_Some (page_query p) →
  run evs (load p) = Some w →
  (∃ w1, listener {| key := Enter; defaultPrevented := false |} w
           = (Normal {| key := Enter; defaultPrevented := false |}, w1) ∧
         step (KeyPress Enter) w = Some w1) ∧
  (∃ w', run [KeyPress Enter; FetchRejected (length (calls w)) reason] w = Some w' ∧
         container w' = Some [] ∧ query_el w' = query_el w ∧
         calls w' !! length (calls w) = Some (Rejected reason) ∧
         reason ∈ unhandled w' ∧ uncaught w' = []) ∧
  (∃ w', run [KeyPress Enter; FetchFulfilled (length (calls w));
              JsonRejected (length (calls w)) reason] w = Some w' ∧
         container w' = Some [] ∧ query_el w' = query_el w ∧
         calls w' !! length (calls w) = Some (Rejected reason) ∧
         reason ∈ unhandled w' ∧ uncaught w' = []) ∧
  (∀ ev i w', ev = FetchRejected i reason ∨ ev = JsonRejected i reason →
     step ev w = Some w' →
     results_el w' = results_el w ∧ query_el w' = query_el w ∧
     uncaught w' = uncaught w ∧ network w' = network w ∧
     calls w' = <[i := Rejected reason]> (calls w)) ∧
  (∀ w1 evs' w2,
     step (KeyPress Enter) w = Some w1 →
     Forall (λ ev, ∀ j v, ev ≠ JsonFulfilled j v) evs' →
     run evs' w1 = Some w2 →
     container w2 = Some [] ∧ uncaught w2 = []).
Proof.
  intros Hres Hq Hreach. pose proof (inv_reach _ _ _ Hq Hreach) as Hinv.
  split; [|split; [|split; [|split]]]; cycle 4.
  { intros w1 evs' w2 Hkey Hquiet Hrun.
    destruct (enter_search p w Hinv Hres) as (w1' & Hkey' & Hinv1 & Hcont & _).
    rewrite Hkey in Hkey'. injection Hkey' as <-.
    split; [by apply (run_stays_cleared p evs' w1 w2)|].
    by destruct (inv_run _ _ _ _ Hinv1 Hrun). }
  - destruct (inv_query _ _ Hinv) as [el Hel].
    exists (search (value el) w).2. split.
    + rewrite (listener_eq _ el); [|done|apply Hinv]. by rewrite decide_True.
    + rewrite (step_keypress _ el); [|done|apply Hinv..]. by rewrite decide_True.
  - destruct (enter_search p w Hinv Hres)
      as (w1 & Hstep & Hinv1 & Hcont & Hcalls & Hquery & _).
    eexists. split.
    { apply (run_snoc [_] _ _ w1); [by cbn [run]; rewrite Hstep|].
      apply (step_fetch_rejected _ _ (Some ResultsRef)).
      rewrite Hcalls. apply lookup_snoc_length. }
    assert (<[length (calls w) := Rejected reason]> (calls w1)
              !! length (calls w) = Some (Rejected reason)) as Hi.
    { rewrite Hcalls. by rewrite insert_snoc_length, lookup_snoc_length. }
    repeat split; try done.
    + by apply (unhandled_lookup _ (length (calls w))).
    + apply Hinv1.
  - destruct (start_search p w Hinv Hres)
      as (w2 & Hrun & Hinv2 & Hcont & Hcalls & Hquery & _).
    eexists. split.
    { apply (run_snoc [_; _] _ _ w2); [done|].
      apply (step_json_rejected _ _ (Some ResultsRef) (list_of [])).
      rewrite Hcalls. apply lookup_snoc_length. }
    assert (<[length (calls w) := Rejected reason]> (calls w2)
              !! length (calls w) = Some (Rejected reason)) as Hi.
    { rewrite Hcalls. by rewrite insert_snoc_length, lookup_snoc_length. }
    repeat split; try done.
    + by apply (unhandled_lookup _ (length (calls w))).
    + apply Hinv2.
  - intros ev i w' Hev Hstep.
    destruct (step_outcome _ _ _ _ Hinv Hstep); destruct Hev; by simplify_eq.
Qed.

(** ** The loop variables *)

(** Only a body that iterates to at least one entry touches the globals. *)
Lemma step_globals p ev w w' :
  inv p w → step ev w = Some w' → rebinds ev = false →
  global_path w' = global_path w ∧ global_rank w' = global_rank w.
Proof.
  intros Hinv Hstep Hquiet.
  destruct (step_outcome _ _ _ _ Hinv Hstep) as
    [ | | | | | | |i parsed e entries gp gr Hi Hit Hloop
    |i parsed el entries ul' gp gr Hi Hel Hit Hloop]; try done.
  - by rewrite search_eq; destruct (results_el w).
  - simpl in Hquiet. rewrite Hit in Hquiet.
    destruct entries; [|done]. simpl in Hloop. by inversion Hloop.
  - simpl in Hquiet. rewrite Hit in Hquiet.
    destruct entries; [|done]. simpl in Hloop.
    unfold mret, JS_ret in Hloop. injection Hloop as _ Hw. simpl.
    split; [apply (f_equal global_path) in Hw|apply (f_equal global_rank) in Hw];
      by simpl in Hw.
Qed.

Lemma run_globals p evs w w' :
  inv p w → run evs w = Some w' → Forall (λ ev, rebinds ev = false) evs →
  global_path w' = global_path w ∧ global_rank w' = global_rank w.
Proof.
  revert w. induction evs as [|ev evs IH]; intros w Hinv; simpl.
  - by intros [= <-].
  - destruct (step ev w) as [w1|] eqn:Hstep; [|done]. simpl.
    intros Hrun [Hev Hevs]%Forall_cons.
    destruct (IH w1) as [-> ->]; eauto using inv_step.
    by eapply step_globals.
Qed.

(** C10: [path] and [rank] are not declared, so the loop assigns global
    variables.  When the body of a search parses to a non-empty array and the
    search completes, the globals [path] and [rank] hold the two components
    that the pattern takes from the last entry; and they keep these values
    through everything that follows, new searches included, until a later
    body runs the loop over at least one entry. *)
Theorem loop_variables_are_globals p evs w i entries w' :
  is_Some (page_query p) →
  run evs (load p) = Some w →
  step (JsonFulfilled i (JArray entries)) w = Some w' →
  calls w' !! i = Some Fulfilled →
  entries ≠ [] →
  ∃ entry pth rnk,
    last entries = Some entry ∧
    destructure entry = Normal (pth, rnk) ∧
    global_path w' = Some pth ∧ global_rank w' = Some rnk ∧
    ∀ evs' w'',
      Forall (λ ev, rebinds ev = false) evs' →
      run evs' w' = Some w'' →
      global_path w'' = Some pth ∧ global_rank w'' = Some rnk.
Proof.
  intros Hq Hreach Hstep Hdone Hne.
  pose proof (inv_reach _ _ _ Hq Hreach) as Hinv.
  pose proof (inv_step _ _ _ _ Hinv Hstep) as Hinv'.
  assert (∃ ul' w1, for_of entries (list_of []) w = (Normal ul', w1) ∧
            global_path w' = global_path w1 ∧ global_rank w' = global_rank w1)
    as (ul' & w1 & Hloop & Hp & Hr).
  { pose proof (step_outcome _ _ _ _ Hinv Hstep) as Hout.
    inversion Hout as
      [ | | | | | |? ? e Hi Hit
      |? ? e entries' gp gr Hi Hit Hloop
      |? ? el entries' ul' gp gr Hi Hel Hit Hloop]; subst.
    - done.
    - simpl in Hdone.
      rewrite list_lookup_insert_eq in Hdone; [done|by eapply lookup_lt_Some].
    - simpl in Hit. simplify_eq. eauto. }
  pose proof (for_of_last _ _ _ _ _ Hloop) as Hlast.
  destruct (last entries) as [entry|] eqn:Hentry; [|by apply last_None in Hentry].
  destruct Hlast as (pth & rnk & Hd & Hp1 & Hr1).
  exists entry, pth, rnk. rewrite Hp, Hr.
  repeat (split; [done|]).
  intros evs' w'' Hquiet Hrun.
  destruct (run_globals p evs' w' w'') as [-> ->]; try done.
  by rewrite Hp, Hr.
Qed.

(** ** Clearing the container *)

(** When call [i] is the only one that can still continue and no search is
    started, the container stays empty until call [i] is fulfilled. *)
Lemma step_alone p i ev w w' :
  inv p w → step ev w = Some w' → ev ≠ KeyPress Enter →
  (∀ j a, calls w !! j = Some a → pending a = true → j = i) →
  (calls w !! i ≠ Some Fulfilled → container w = Some []) →
  (∀ j a, calls w' !! j = Some a → pending a = true → j = i) ∧
  (calls w' !! i ≠ Some Fulfilled → container w' = Some []).
Proof.
  intros Hinv Hstep Hev Honly Hc.
  assert (∀ j a b, calls w !! j = Some a → pending a = true →
            (∀ k c, <[j := b]> (calls w) !! k = Some c → pending c = true → k = i) ∧
            <[j := b]> (calls w) !! i = Some b ∧
            container w = Some []) as Hupd.
  { intros j a b Hj Ha. pose proof (Honly j a Hj Ha) as ->.
    split; [|split].
    - intros k c Hk Hpc. destruct (decide (i = k)) as [|Hne]; [done|].
      rewrite list_lookup_insert_ne in Hk by done. eauto.
    - apply list_lookup_insert_eq. by eapply lookup_lt_Some.
    - apply Hc. rewrite Hj. by destruct a. }
  destruct (step_outcome _ _ _ _ Hinv Hstep)
    as [ | | |j Hj|j reason Hj|j reason Hj|j parsed e Hj Hit
       |j parsed e entries gp gr Hj Hit Hloop
       |j parsed el entries ul' gp gr Hj Hel Hit Hloop]; try done.
  - destruct (Hupd j _ (AwaitJson (Some ResultsRef) (list_of [])) Hj eq_refl)
      as (Hp & Hi & Hcont). simpl. by split.
  - destruct (Hupd j _ (Rejected reason) Hj eq_refl) as (Hp & Hi & Hcont).
    simpl. by split.
  - destruct (Hupd j _ (Rejected reason) Hj eq_refl) as (Hp & Hi & Hcont).
    simpl. by split.
  - destruct (Hupd j _ (Rejected e) Hj eq_refl) as (Hp & Hi & Hcont).
    simpl. by split.
  - destruct (Hupd j _ (Rejected e) Hj eq_refl) as (Hp & Hi & Hcont).
    simpl. by split.
  - destruct (Hupd j _ Fulfilled Hj eq_refl) as (Hp & Hi & Hcont).
    simpl. split; [done|]. intros Hnot. by destruct Hnot.
Qed.

Lemma run_alone p i evs w w' :
  inv p w → run evs w = Some w' → Forall (λ ev, ev ≠ KeyPress Enter) evs →
  (∀ j a, calls w !! j = Some a → pending a = true → j = i) →
  (calls w !! i ≠ Some Fulfilled → container w = Some []) →
  calls w' !! i ≠ Some Fulfilled → container w' = Some [].
Proof.
  revert w. induction evs as [|ev evs IH]; intros w Hinv; simpl.
  - intros [= <-] _ _ Hc. done.
  - destruct (step ev w) as [w1|] eqn:Hstep; [|done]. simpl.
    intros Hrun [Hev Hevs]%Forall_cons Honly Hc.
    destruct (step_alone p i ev w w1) as [Honly1 Hc1]; try done.
    apply (IH w1); eauto using inv_step.
Qed.

(** C3 (amended): every search on a page with the results container clears
    the container at once, before any response can arrive: right after the
    key press it has no children.  It stays without children as long as no
    body is delivered to any call; and when no other call was waiting at the
    key press and no further search is started, it stays without children
    until the list of this very search is appended.  (With an earlier search
    still in flight, the list of that search can come first.) *)
Theorem search_clears_container p evs w w1 :
  is_Some (page_results p) → is_Some (page_query p) →
  run evs (load p) = Some w →
  step (KeyPress Enter) w = Some w1 →
  container w1 = Some [] ∧
  (∀ evs' w2,
     Forall (λ ev, ∀ j v, ev ≠ JsonFulfilled j v) evs' →
     run evs' w1 = Some w2 →
     container w2 = Some []) ∧
  (Forall (λ a, pending a = false) (calls w) →
   ∀ evs' w2,
     Forall (λ ev, ev ≠ KeyPress Enter) evs' →
     run evs' w1 = Some w2 →
     calls w2 !! length (calls w) ≠ Some Fulfilled →
     container w2 = Some []).
Proof.
  intros Hres Hq Hreach Hstep. pose proof (inv_reach _ _ _ Hq Hreach) as Hinv.
  destruct (enter_search p w Hinv Hres)
    as (w1' & Hstep' & Hinv1 & Hcont & Hcalls & _).
  rewrite Hstep in Hstep'. injection Hstep' as <-.
  split; [done|]. split.
  - intros evs' w2 Hquiet Hrun. by eapply run_stays_cleared.
  - intros Hidle evs' w2 Hnokey Hrun Hnot.
    eapply (run_alone p (length (calls w))); try done.
    intros j a Hj Ha. rewrite Hcalls in Hj.
    apply lookup_snoc_Some in Hj as [[_ Hj]|[<- _]]; [|done].
    pose proof (Forall_lookup_1 _ _ _ _ Hidle Hj) as Hno. simpl in Hno.
    by rewrite Ha in Hno.
Qed.

(** ** Two searches at once *)

Lemma typing_step p q w :
  inv p w →
  ∃ w', step (Typing q) w = Some w' ∧ inv p w' ∧
        (value <$> query_el w') = Some q ∧
        results_el w' = results_el w ∧ calls w' = calls w ∧
        network w' = network w.
Proof.
  intros Hinv. destruct (inv_query _ _ Hinv) as [el Hel].
  assert (step (Typing q) w =
          Some (set_query_el (Some {| children := children el; value := q |}) w))
    as Hstep by (by unfold step; rewrite Hel).
  eexists. split; [exact Hstep|]. split; [by eapply inv_step|done].
Qed.

Lemma fetch_step p w i r :
  inv p w → calls w !! i = Some (AwaitFetch r) →
  ∃ w', step (FetchFulfilled i) w = Some w' ∧ inv p w' ∧
        results_el w' = results_el w ∧
        calls w' = <[i := AwaitJson (Some ResultsRef) (list_of [])]> (calls w).
Proof.
  intros Hinv Hi.
  pose proof (Forall_lookup_1 _ _ _ _ (inv_calls _ _ Hinv) Hi eq_refl)
    as [_ [?|?]]; simplify_eq.
  assert (step (FetchFulfilled i) w =
          Some (set_calls (<[i := AwaitJson (Some ResultsRef) (list_of [])]> (calls w)) w))
    as Hstep by (by unfold step; rewrite Hi).
  eexists. split; [exact Hstep|]. split; [by eapply inv_step|done].
Qed.

Lemma lookup_pair_first {A} (l : list A) x y : (l ++ [x; y]) !! length l = Some x.
Proof. by apply list_lookup_middle. Qed.

Lemma lookup_pair_second {A} (l : list A) x y :
  (l ++ [x; y]) !! S (length l) = Some y.
Proof.
  rewrite lookup_app_r by lia.
  by replace (S (length l) - length l) with 1 by lia.
Qed.

Lemma insert_pair_first {A} (l : list A) x y z :
  <[length l := z]> (l ++ [x; y]) = l ++ [z; y].
Proof. by rewrite insert_app_r_alt, Nat.sub_diag by lia. Qed.

Lemma insert_pair_second {A} (l : list A) x y z :
  <[S (length l) := z]> (l ++ [x; y]) = l ++ [x; z].
Proof.
  rewrite insert_app_r_alt by lia.
  by replace (S (length l) - length l) with 1 by lia.
Qed.

Section TwoCalls.
Context (p : Page) (base : list Activation).

Lemma two_fetch_first r cb kids w :
  two_calls p base (AwaitFetch r) cb kids w →
  ∃ w', step (FetchFulfilled (length base)) w = Some w' ∧
        two_calls p base (AwaitJson (Some ResultsRef) (list_of [])) cb kids w'.
Proof.
  intros (Hinv & Hcalls & Hcont).
  destruct (fetch_step p w (length base) r Hinv) as (w' & Hs & Hinv' & Hel & Hc).
  { rewrite Hcalls. apply lookup_pair_first. }
  exists w'. split; [done|]. split; [done|]. split.
  - rewrite Hc, Hcalls. apply insert_pair_first.
  - unfold container. by rewrite Hel.
Qed.

Lemma two_fetch_second r ca kids w :
  two_calls p base ca (AwaitFetch r) kids w →
  ∃ w', step (FetchFulfilled (S (length base))) w = Some w' ∧
        two_calls p base ca (AwaitJson (Some ResultsRef) (list_of [])) kids w'.
Proof.
  intros (Hinv & Hcalls & Hcont).
  destruct (fetch_step p w (S (length base)) r Hinv) as (w' & Hs & Hinv' & Hel & Hc).
  { rewrite Hcalls. apply lookup_pair_second. }
  exists w'. split; [done|]. split; [done|]. split.
  - rewrite Hc, Hcalls. apply insert_pair_second.
  - unfold container. by rewrite Hel.
Qed.

Lemma two_json_first r ul cb kids w (es : list (ResultEntry Number)) :
  two_calls p base (AwaitJson r ul) cb kids w →
  ∃ w', step (JsonFulfilled (length base) (response_of es)) w = Some w' ∧
        two_calls p base Fulfilled cb (kids ++ [list_of (entry_item <$> es)]) w'.
Proof.
  intros (Hinv & Hcalls & Hcont).
  destruct (render_step p w (length base) r ul es Hinv)
    as (w' & el & Hs & Hinv' & Hel & Hel' & Hc & _).
  { rewrite Hcalls. apply lookup_pair_first. }
  exists w'. split; [done|]. split; [done|]. split.
  - rewrite Hc, Hcalls. apply insert_pair_first.
  - unfold container in *. rewrite Hel in Hcont. rewrite Hel'.
    injection Hcont as Hkids. simpl. by rewrite Hkids.
Qed.

Lemma two_json_second r ul ca kids w (es : list (ResultEntry Number)) :
  two_calls p base ca (AwaitJson r ul) kids w →
  ∃ w', step (JsonFulfilled (S (length base)) (response_of es)) w = Some w' ∧
        two_calls p base ca Fulfilled (kids ++ [list_of (entry_item <$> es)]) w'.
Proof.
  intros (Hinv & Hcalls & Hcont).
  destruct (render_step p w (S (length base)) r ul es Hinv)
    as (w' & el & Hs & Hinv' & Hel & Hel' & Hc & _).
  { rewrite Hcalls. apply lookup_pair_second. }
  exists w'. split; [done|]. split; [done|]. split.
  - rewrite Hc, Hcalls. apply insert_pair_second.
  - unfold container in *. rewrite Hel in Hcont. rewrite Hel'.
    injection Hcont as Hkids. simpl. by rewrite Hkids.
Qed.

End TwoCalls.

(** Two searches started back to back, the field edited before each. *)
Lemma start_two p w qa qb :
  inv p w → is_Some (page_results p) →
  ∃ w2, run [Typing qa; KeyPress Enter; Typing qb; KeyPress Enter] w = Some w2 ∧
        two_calls p (calls w) (AwaitFetch (Some ResultsRef))
          (AwaitFetch (Some ResultsRef)) [] w2 ∧
        network w2 = network w ++ [search_request qa; search_request qb].
Proof.
  intros Hinv Hres.
  destruct (typing_step p qa w Hinv) as (wa & Hsa & Hinva & Hva & _ & Hca & Hna).
  destruct (enter_search p wa Hinva Hres)
    as (w1 & Hs1 & Hinv1 & _ & Hc1 & _ & _ & _ & Hn1).
  destruct (typing_step p qb w1 Hinv1) as (wb & Hsb & Hinvb & Hvb & _ & Hcb & Hnb).
  destruct (enter_search p wb Hinvb Hres)
    as (w2 & Hs2 & Hinv2 & Hcont2 & Hc2 & _ & _ & _ & Hn2).
  exists w2. split; [|split; [split; [done|split; [|done]]|]].
  - cbn [run]. rewrite Hsa. cbn [mbind option_bind]. rewrite Hs1.
    cbn [mbind option_bind]. rewrite Hsb. cbn [mbind option_bind]. by rewrite Hs2.
  - by rewrite Hc2, Hcb, Hc1, Hca, <- app_assoc.
  - rewrite Hn2, Hnb, Hn1, Hna, <- app_assoc.
    destruct (query_el wa), (query_el wb); simplify_eq/=. done.
Qed.

(** The end of each of the six schedules below: the order of the bodies
    gives the order of the lists. *)
Ltac both_rendered Hgo Hsnd :=
  unfold body_order; cbn [omap list_omap fmap list_fmap];
  rewrite Hsnd, decide_True by done;
  eapply Hgo; [done..| |done]; by repeat constructor.

(** C8 (amended): when a second search is started before the first one has
    its response, both run to the end, neither waiting for the other and
    neither cancelled: both requests are sent, and in whatever order the two
    responses and the two bodies arrive, both calls are fulfilled.  No
    response wins: each body appends its list to the container, which ends up
    holding both lists, in the order in which the bodies arrived. *)
Theorem concurrent_searches_both_render p evs w qa qb
    (ra rb : list (ResultEntry Number)) tr :
  is_Some (page_results p) → is_Some (page_query p) →
  run evs (load p) = Some w →
  tr ∈ merges
         [FetchFulfilled (length (calls w));
          JsonFulfilled (length (calls w)) (response_of ra)]
         [FetchFulfilled (S (length (calls w)));
          JsonFulfilled (S (length (calls w))) (response_of rb)] →
  ∃ w',
    run ([Typing qa; KeyPress Enter; Typing qb; KeyPress Enter] ++ tr) w = Some w' ∧
    network w' = network w ++ [search_request qa; search_request qb] ∧
    calls w' = calls w ++ [Fulfilled; Fulfilled] ∧
    container w' =
      Some ((λ i, list_of (entry_item <$>
                             if decide (i = length (calls w)) then ra else rb))
              <$> body_order tr).
Proof.
  intros Hres Hq Hreach Htr. pose proof (inv_reach _ _ _ Hq Hreach) as Hinv.
  destruct (start_two p w qa qb Hinv Hres) as (w2 & Hrun & Htwo & Hnet).
  assert (∀ i, (if decide (S i = i) then ra else rb) = rb) as Hsnd.
  { intros i. rewrite decide_False; [done|lia]. }
  assert (∀ t1 t2 t3 t4 w3 w4 w5 w6 kids,
            step t1 w2 = Some w3 → step t2 w3 = Some w4 →
            step t3 w4 = Some w5 → step t4 w5 = Some w6 →
            Forall (λ ev, ∀ k, ev ≠ KeyPress k) [t1; t2; t3; t4] →
            two_calls p (calls w) Fulfilled Fulfilled kids w6 →
            ∃ w', run ([Typing qa; KeyPress Enter; Typing qb; KeyPress Enter]
                       ++ [t1; t2; t3; t4]) w = Some w' ∧
                  network w' = network w ++ [search_request qa; search_request qb] ∧
                  calls w' = calls w ++ [Fulfilled; Fulfilled] ∧
                  container w' = Some kids) as Hgo.
  { intros t1 t2 t3 t4 w3 w4 w5 w6 kids H1 H2 H3 H4 Hnokey (Hinv6 & Hc6 & Hk6).
    assert (run [t1; t2; t3; t4] w2 = Some w6) as Hrun'.
    { cbn [run]. rewrite H1. cbn [mbind option_bind]. rewrite H2.
      cbn [mbind option_bind]. rewrite H3. cbn [mbind option_bind]. by rewrite H4. }
    exists w6. split; [by rewrite run_app, Hrun|].
    split; [|done]. rewrite <- Hnet.
    apply (run_network p [t1; t2; t3; t4]); [apply Htwo|done..]. }
  simpl in Htr.
  repeat (apply elem_of_cons in Htr as [->|Htr]); [..|by apply elem_of_nil in Htr].
  - destruct (two_fetch_first _ _ _ _ _ _ Htwo) as (w3 & H1 & T1).
    destruct (two_json_first _ _ _ _ _ _ _ ra T1) as (w4 & H2 & T2).
    destruct (two_fetch_second _ _ _ _ _ _ T2) as (w5 & H3 & T3).
    destruct (two_json_second _ _ _ _ _ _ _ rb T3) as (w6 & H4 & T4).
    by both_rendered Hgo Hsnd.
  - destruct (two_fetch_first _ _ _ _ _ _ Htwo) as (w3 & H1 & T1).
    destruct (two_fetch_second _ _ _ _ _ _ T1) as (w4 & H2 & T2).
    destruct (two_json_first _ _ _ _ _ _ _ ra T2) as (w5 & H3 & T3).
    destruct (two_json_second _ _ _ _ _ _ _ rb T3) as (w6 & H4 & T4).
    by both_rendered Hgo Hsnd.
  - destruct (two_fetch_first _ _ _ _ _ _ Htwo) as (w3 & H1 & T1).
    destruct (two_fetch_second _ _ _ _ _ _ T1) as (w4 & H2 & T2).
    destruct (two_json_second _ _ _ _ _ _ _ rb T2) as (w5 & H3 & T3).
    destruct (two_json_first _ _ _ _ _ _ _ ra T3) as (w6 & H4 & T4).
    by both_rendered Hgo Hsnd.
  - destruct (two_fetch_second _ _ _ _ _ _ Htwo) as (w3 & H1 & T1).
    destruct (two_fetch_first _ _ _ _ _ _ T1) as (w4 & H2 & T2).
    destruct (two_json_first _ _ _ _ _ _ _ ra T2) as (w5 & H3 & T3).
    destruct (two_json_second _ _ _ _ _ _ _ rb T3) as (w6 & H4 & T4).
    by both_rendered Hgo Hsnd.
  - destruct (two_fetch_second _ _ _ _ _ _ Htwo) as (w3 & H1 & T1).
    destruct (two_fetch_first _ _ _ _ _ _ T1) as (w4 & H2 & T2).
    destruct (two_json_second _ _ _ _ _ _ _ rb T2) as (w5 & H3 & T3).
    destruct (two_json_first _ _ _ _ _ _ _ ra T3) as (w6 & H4 & T4).
    by both_rendered Hgo Hsnd.
  - destruct (two_fetch_second _ _ _ _ _ _ Htwo) as (w3 & H1 & T1).
    destruct (two_json_second _ _ _ _ _ _ _ rb T1) as (w4 & H2 & T2).
    destruct (two_fetch_first _ _ _ _ _ _ T2) as (w5 & H3 & T3).
    destruct (two_json_first _ _ _ _ _ _ _ ra T3) as (w6 & H4 & T4).
    by both_rendered Hgo Hsnd.
Qed.

(** * Further properties of the script *)

(** ** The loop on arbitrary entries *)

Lemma loop_body_texts tag c kids entry w :
  loop_body (Elem tag c kids) entry w =
  match destructure entry with
  | Throw e => (Throw e, w)
  | Normal (pth, rnk) =>
      match entry_texts entry with
      | Normal t =>
          (Normal (Elem tag c (kids ++ [item_of t.1 t.2])), bind_globals pth rnk w)
      | Throw e => (Throw e, bind_globals pth rnk w)
      end
  end.
Proof.
  rewrite loop_body_eq. unfold entry_texts.
  destruct (destructure entry) as [[pth rnk]|e]; [|done]. cbn zeta.
  by destruct (ToString pth), (ToString rnk).
Qed.

Lemma for_of_app l1 l2 ul w :
  for_of (l1 ++ l2) ul w =
  match for_of l1 ul w with
  | (Normal ul1, w1) => for_of l2 ul1 w1
  | (Throw e, w1) => (Throw e, w1)
  end.
Proof.
  revert ul w. induction l1 as [|entry l1 IH]; intros ul w; [done|].
  simpl. unfold mbind, JS_bind.
  destruct (loop_body ul entry w) as [[ul1|e] w1]; [apply IH|done].
Qed.

(** Entries that all have their two texts: the loop completes with one item
    each, in order. *)
Lemma for_of_texts entries texts tag c kids w :
  Forall2 (λ entry t, entry_texts entry = Normal t) entries texts →
  ∃ w', for_of entries (Elem tag c kids) w
        = (Normal (Elem tag c (kids ++ items_of texts)), w').
Proof.
  intros Hall. revert kids w.
  induction Hall as [|entry t entries texts Ht Hall IH]; intros kids w.
  - exists w. simpl. by rewrite app_nil_r.
  - simpl. unfold mbind, JS_bind. rewrite loop_body_texts, Ht.
    assert (∃ pth rnk, destructure entry = Normal (pth, rnk)) as (pth & rnk & ->).
    { unfold entry_texts in Ht. destruct (destructure entry) as [[??]|]; by eauto. }
    destruct (IH (kids ++ [item_of t.1 t.2]) (bind_globals pth rnk w)) as [w' ->].
    exists w'. by rewrite <- app_assoc.
Qed.

(** A loop that completes has put exactly the two texts of each entry on the
    list. *)
Lemma for_of_texts_inv entries tag c kids w ul' w' :
  for_of entries (Elem tag c kids) w = (Normal ul', w') →
  ∃ texts,
    Forall2 (λ entry t, entry_texts entry = Normal t) entries texts ∧
    ul' = Elem tag c (kids ++ items_of texts).
Proof.
  revert kids w. induction entries as [|entry entries IH]; intros kids w.
  - intros [= <- <-]. exists []. split; [constructor|by rewrite app_nil_r].
  - simpl. unfold mbind, JS_bind. rewrite loop_body_texts.
    destruct (destructure entry) as [[pth rnk]|e]; [|done].
    destruct (entry_texts entry) as [t|e] eqn:Ht; [|done].
    intros Hrest. destruct (IH _ _ Hrest) as (texts & Hall & ->).
    exists (t :: texts). split; [by constructor|]. by rewrite <- app_assoc.
Qed.

(** The first entry without texts stops the loop with its error; the globals
    are those of the last entry that was destructured. *)
Lemma for_of_first_failure good texts bad rest e tag c kids w :
  Forall2 (λ entry t, entry_texts entry = Normal t) good texts →
  entry_texts bad = Throw e →
  ∃ w', for_of (good ++ bad :: rest) (Elem tag c kids) w = (Throw e, w') ∧
        match destructure bad, last good with
        | Normal (pth, rnk), _ =>
            global_path w' = Some pth ∧ global_rank w' = Some rnk
        | Throw _, Some g =>
            ∃ pth rnk, destructure g = Normal (pth, rnk) ∧
              global_path w' = Some pth ∧ global_rank w' = Some rnk
        | Throw _, None =>
            global_path w' = global_path w ∧ global_rank w' = global_rank w
        end.
Proof.
  intros Hall Hbad.
  destruct (for_of_texts good texts tag c kids w Hall) as [w1 Hgood].
  pose proof (for_of_last _ _ _ _ _ Hgood) as Hlast.
  rewrite for_of_app, Hgood. simpl. unfold mbind, JS_bind.
  rewrite loop_body_texts, Hbad.
  destruct (destructure bad) as [[pth rnk]|e'] eqn:Hd.
  - eexists. split; [done|]. done.
  - unfold entry_texts in Hbad. rewrite Hd in Hbad. injection Hbad as ->.
    eexists. split; [done|].
    destruct (last good) as [g|]; [done|]. by subst w1.
Qed.

(** ** Bodies of any shape *)

(** X1: a body that parses to something that is neither an array nor a
    string (null, a boolean, a number, an object) is not iterable: the call
    that receives it is rejected with a TypeError before the loop runs, and
    nothing else changes: no list is appended, the globals [path] and [rank]
    are not assigned, no request is sent. *)
Theorem non_iterable_body_rejected p evs w i r ul parsed :
  is_Some (page_query p) →
  run evs (load p) = Some w →
  calls w !! i = Some (AwaitJson r ul) →
  (∀ l, parsed ≠ JArray l) → (∀ s, parsed ≠ JString s) →
  step (JsonFulfilled i parsed) w
    = Some (set_calls (<[i := Rejected TypeErrorNotIterable]> (calls w)) w).
Proof.
  intros Hq Hreach Hi Harr Hstr. pose proof (inv_reach _ _ _ Hq Hreach) as Hinv.
  pose proof (Forall_lookup_1 _ _ _ _ (inv_calls _ _ Hinv) Hi eq_refl)
    as [_ [?|?]]; simplify_eq.
  unfold step, resume. rewrite Hi, search_after_json_eq.
  destruct parsed; try done; [by edestruct Hstr|by edestruct Harr].
Qed.

(** X2: whatever the body is, a search that completes has appended to the
    results container exactly one [ul] of class "result-list" with one [li]
    per value the body iterates to, in order; each [li] is a span with a text
    node, a text node with one space, and a span of class "rank" with a text
    node, the two texts being the string conversions of the first two
    components of the entry.  What the response says reaches the page as the
    data of text nodes only. *)
Theorem fulfilled_search_appends_items p evs w i parsed w' :
  is_Some (page_query p) →
  run evs (load p) = Some w →
  step (JsonFulfilled i parsed) w = Some w' →
  calls w' !! i = Some Fulfilled →
  ∃ entries texts,
    iterate parsed = Normal entries ∧
    Forall2 (λ entry t, entry_texts entry = Normal t) entries texts ∧
    container w' = (λ kids, kids ++ [list_of (items_of texts)]) <$> container w.
Proof.
  intros Hq Hreach Hstep Hdone. pose proof (inv_reach _ _ _ Hq Hreach) as Hinv.
  pose proof (step_outcome _ _ _ _ Hinv Hstep) as Hout.
  inversion Hout as
    [ | | | | | |? ? e Hi Hit
    |? ? e entries gp gr Hi Hit Hloop
    |? ? el entries ul' gp gr Hi Hel Hit Hloop]; subst.
  - simpl in Hdone.
    rewrite list_lookup_insert_eq in Hdone; [done|by eapply lookup_lt_Some].
  - simpl in Hdone.
    rewrite list_lookup_insert_eq in Hdone; [done|by eapply lookup_lt_Some].
  - unfold list_of in Hloop.
    destruct (for_of_texts_inv _ _ _ _ _ _ _ Hloop) as (texts & Hall & ->).
    exists entries, texts. split; [done|]. split; [done|].
    unfold container. simpl. by rewrite Hel.
Qed.

(** X3: when the loop fails at an entry (it cannot be destructured, or one of
    its two components has no string conversion), the call is rejected with
    the error of that first failing entry, nothing is appended and no request
    is sent, but the assignments made so far stay: [path] and [rank] hold the
    components of the failing entry if it was destructured, else those of the
    entry before it, else what they held before. *)
Theorem failing_entry_rejects p evs w i r ul good texts bad rest e :
  is_Some (page_query p) →
  run evs (load p) = Some w →
  calls w !! i = Some (AwaitJson r ul) →
  Forall2 (λ entry t, entry_texts entry = Normal t) good texts →
  entry_texts bad = Throw e →
  ∃ w', step (JsonFulfilled i (JArray (good ++ bad :: rest))) w = Some w' ∧
        calls w' = <[i := Rejected e]> (calls w) ∧
        container w' = container w ∧
        network w' = network w ∧
        match destructure bad, last good with
        | Normal (pth, rnk), _ =>
            global_path w' = Some pth ∧ global_rank w' = Some rnk
        | Throw _, Some g =>
            ∃ pth rnk, destructure g = Normal (pth, rnk) ∧
              global_path w' = Some pth ∧ global_rank w' = Some rnk
        | Throw _, None =>
            global_path w' = global_path w ∧ global_rank w' = global_rank w
        end.
Proof.
  intros Hq Hreach Hi Hgood Hbad. pose proof (inv_reach _ _ _ Hq Hreach) as Hinv.
  pose proof (Forall_lookup_1 _ _ _ _ (inv_calls _ _ Hinv) Hi eq_refl)
    as [[el Hel] [?|?]]; simplify_eq.
  destruct (for_of_first_failure good texts bad rest e (lit "ul") (lit "result-list")
              [] w Hgood Hbad) as (w1 & Hloop & Hglobals).
  pose proof (for_of_frame _ _ _ _ _ Hloop) as (gp & gr & ->).
  eexists. split.
  { unfold step, resume. rewrite Hi, search_after_json_eq. simpl iterate.
    cbn iota. unfold list_of. rewrite Hloop. cbn [calls set_global_rank set_global_path settle].
    reflexivity. }
  repeat (split; [done|]). exact Hglobals.
Qed.

(** Delivering a body whose entries all have their two texts. *)
Lemma step_texts p w i r ul parsed entries texts :
  inv p w → calls w !! i = Some (AwaitJson r ul) →
  iterate parsed = Normal entries →
  Forall2 (λ entry t, entry_texts entry = Normal t) entries texts →
  ∃ w', step (JsonFulfilled i parsed) w = Some w' ∧
        calls w' = <[i := Fulfilled]> (calls w) ∧
        container w' = (λ kids, kids ++ [list_of (items_of texts)]) <$> container w ∧
        network w' = network w.
Proof.
  intros Hinv Hi Hit Hall.
  pose proof (Forall_lookup_1 _ _ _ _ (inv_calls _ _ Hinv) Hi eq_refl)
    as [[el Hel] [?|?]]; simplify_eq.
  destruct (for_of_texts entries texts (lit "ul") (lit "result-list") [] w Hall)
    as (w1 & Hloop).
  pose proof (for_of_frame _ _ _ _ _ Hloop) as (gp & gr & ->).
  eexists. split.
  { unfold step, resume. rewrite Hi, search_after_json_eq, Hit.
    unfold list_of. rewrite Hloop. cbn [results_el set_global_rank set_global_path].
    rewrite Hel. cbn [calls set_results_el set_global_rank set_global_path settle].
    reflexivity. }
  unfold container. simpl. by rewrite Hel.
Qed.

Lemma entry_texts_row (row : list JSString) :
  entry_texts (row_json (Number:=Number) row) = Normal (text_at row 0, text_at row 1).
Proof.
  unfold entry_texts, destructure, element_or_undefined, text_at, row_json.
  simpl iterate. cbn iota. rewrite !list_lookup_fmap.
  by destruct (row !! 0), (row !! 1).
Qed.

(** X4: entries that are arrays of strings of any length.  The loop takes
    the first two members of each: a missing rank, or a missing path and
    rank, show as the text "undefined"; members after the second are
    ignored.  No entry is skipped for being too short or too long. *)
Theorem rows_of_any_length_render p evs w i r ul (rows : list (list JSString)) :
  is_Some (page_query p) →
  run evs (load p) = Some w →
  calls w !! i = Some (AwaitJson r ul) →
  ∃ w', step (JsonFulfilled i (JArray (row_json <$> rows))) w = Some w' ∧
        calls w' !! i = Some Fulfilled ∧
        container w' =
          (λ kids, kids ++
             [list_of ((λ row, item_of (text_at row 0) (text_at row 1)) <$> rows)])
          <$> container w.
Proof.
  intros Hq Hreach Hi. pose proof (inv_reach _ _ _ Hq Hreach) as Hinv.
  destruct (step_texts p w i r ul (JArray (row_json <$> rows)) (row_json <$> rows)
              ((λ row, (text_at row 0, text_at row 1)) <$> rows) Hinv Hi eq_refl)
    as (w' & Hstep & Hcalls & Hcont & _).
  { apply Forall2_fmap, Forall_Forall2_diag, Forall_forall.
    intros row _. apply entry_texts_row. }
  exists w'. split; [done|]. split.
  - rewrite Hcalls. apply list_lookup_insert_eq. by eapply lookup_lt_Some.
  - rewrite Hcont. unfold items_of. by rewrite <- list_fmap_compose.
Qed.

(** The pieces a string iterator yields are single code points. *)
Lemma code_points_pieces (s : JSString) :
  Forall (λ cp, code_points cp = [cp]) (code_points s) ∧
  mjoin (code_points s) = s.
Proof.
  assert (∀ n (s' : JSString), length s' ≤ n →
            Forall (λ cp, code_points cp = [cp]) (code_points s') ∧
            mjoin (code_points s') = s') as Hrec; [|by apply (Hrec (length s))].
  clear s. intros n. induction n as [|n IH]; intros s Hlen.
  { destruct s; [done|simpl in Hlen; lia]. }
  destruct s as [|u [|v rest]]; [done| |].
  - split; [by repeat constructor|done].
  - simpl in *. destruct (is_high_surrogate u && is_low_surrogate v) eqn:Hpair.
    + destruct (IH rest) as [Hall Hjoin]; [lia|].
      split.
      * constructor; [|done]. simpl. by rewrite Hpair.
      * simpl. by rewrite Hjoin.
    + destruct (IH (v :: rest)) as [Hall Hjoin]; [simpl; lia|].
      split.
      * by constructor.
      * simpl. simpl in Hjoin. by rewrite Hjoin.
Qed.

(** X5: a body that parses to a string is iterable too.  The loop runs once
    per code point of the string, a surrogate pair counting as one: each item
    shows that code point as the path and "undefined" as the rank, and the
    paths put together are the string again. *)
Theorem string_body_renders_code_points p evs w i r ul (s : JSString) :
  is_Some (page_query p) →
  run evs (load p) = Some w →
  calls w !! i = Some (AwaitJson r ul) →
  ∃ w', step (JsonFulfilled i (JString s)) w = Some w' ∧
        calls w' !! i = Some Fulfilled ∧
        container w' =
          (λ kids, kids ++
             [list_of ((λ cp, item_of cp (lit "undefined")) <$> code_points s)])
          <$> container w ∧
        mjoin (code_points s) = s.
Proof.
  intros Hq Hreach Hi. pose proof (inv_reach _ _ _ Hq Hreach) as Hinv.
  destruct (code_points_pieces s) as [Hpieces Hjoin].
  destruct (step_texts p w i r ul (JString s) (JString <$> code_points s)
              ((λ cp, (cp, lit "undefined")) <$> code_points s) Hinv Hi eq_refl)
    as (w' & Hstep & Hcalls & Hcont & _).
  { apply Forall2_fmap, Forall_Forall2_diag.
    eapply Forall_impl; [exact Hpieces|]. intros cp Hcp.
    unfold entry_texts, destructure. simpl iterate. rewrite Hcp. done. }
  exists w'. split; [done|]. split; [|split; [|done]].
  - rewrite Hcalls. apply list_lookup_insert_eq. by eapply lookup_lt_Some.
  - rewrite Hcont. unfold items_of. by rewrite <- list_fmap_compose.
Qed.

(** ** Whole histories *)

(** Only the user changes the input field. *)
Lemma step_query p ev w w' :
  inv p w → step ev w = Some w' → (∀ text, ev ≠ Typing text) →
  query_el w' = query_el w.
Proof.
  intros Hinv Hstep Hev.
  destruct (step_outcome _ _ _ _ Hinv Hstep); try done; [|by edestruct Hev].
  rewrite search_eq. by destruct (results_el w).
Qed.

(** X6: the script never writes to the input field.  Through any history
    without an edit by the user (searches started, responses and bodies
    arriving, failures), the field and its text are what they were. *)
Theorem input_field_untouched p evs w evs' w' :
  is_Some (page_query p) →
  run evs (load p) = Some w →
  Forall (λ ev, ∀ text, ev ≠ Typing text) evs' →
  run evs' w = Some w' →
  query_el w' = query_el w.
Proof.
  intros Hq Hreach Hquiet Hrun. pose proof (inv_reach _ _ _ Hq Hreach) as Hinv.
  clear Hreach. revert w Hinv Hrun.
  induction Hquiet as [|ev evs' Hev Hquiet IH]; intros w Hinv; simpl.
  - by intros [= <-].
  - destruct (step ev w) as [w1|] eqn:Hstep; [|done]. simpl. intros Hrun.
    rewrite (IH w1), (step_query p ev w w1); eauto using inv_step.
Qed.

Lemma run_requests p evs w w' el :
  inv p w → is_Some (page_results p) → query_el w = Some el →
  run evs w = Some w' →
  network w' = network w ++ (search_request <$> entered evs (value el)) ∧
  length (calls w') = length (calls w) + length (entered evs (value el)).
Proof.
  intros Hinv Hres. revert w el Hinv.
  induction evs as [|ev evs IH]; intros w el Hinv Hel; simpl run.
  - intros [= <-]. simpl. by rewrite app_nil_r, Nat.add_0_r.
  - destruct (step ev w) as [w1|] eqn:Hstep; [|done]. simpl. intros Hrun.
    pose proof (inv_step _ _ _ _ Hinv Hstep) as Hinv1.
    pose proof (step_outcome _ _ _ _ Hinv Hstep) as Hout.
    inversion Hout as
      [k Hk|el' Hel'|text el' Hel'|j Hj|j reason Hj|j reason Hj|j parsed e Hj Hit
      |j parsed e entries gp gr Hj Hit Hloop
      |j parsed rel entries ul' gp gr Hj Hrel Hit Hloop]; subst; simpl entered.
    + rewrite decide_False by done. by apply IH.
    + rewrite decide_True by done. simplify_eq.
      apply (inv_results _ _ Hinv) in Hres as [rel Hrel].
      revert Hinv1 Hrun. rewrite search_eq, Hrel. cbn [snd]. intros Hinv1 Hrun.
      destruct (IH _ el Hinv1 Hel Hrun) as [-> ->]. simpl.
      rewrite <- app_assoc, length_app. simpl. split; [done|lia].
    + by destruct (IH _ {| children := children el'; value := text |} Hinv1
                     eq_refl Hrun) as [-> ->].
    + destruct (IH _ el Hinv1 Hel Hrun) as [-> ->]. simpl.
      by rewrite length_insert.
    + destruct (IH _ el Hinv1 Hel Hrun) as [-> ->]. simpl.
      by rewrite length_insert.
    + destruct (IH _ el Hinv1 Hel Hrun) as [-> ->]. simpl.
      by rewrite length_insert.
    + destruct (IH _ el Hinv1 Hel Hrun) as [-> ->]. simpl.
      by rewrite length_insert.
    + destruct (IH _ el Hinv1 Hel Hrun) as [-> ->]. simpl.
      by rewrite length_insert.
    + destruct (IH _ el Hinv1 Hel Hrun) as [-> ->]. simpl.
      by rewrite length_insert.
Qed.

(** X7: on a page with both elements, the requests the script has sent after
    any history are, in order, one POST to /api/search per Enter, with the
    text the input field held at that key press as its body: nothing is
    sent for other keys, nothing is merged, delayed or dropped, and two
    Enters on the same text send the same request twice.  There are as many
    calls of [search] as requests. *)
Theorem request_log p evs w el :
  is_Some (page_results p) →
  page_query p = Some el →
  run evs (load p) = Some w →
  network w = search_request <$> entered evs (value el) ∧
  length (calls w) = length (network w).
Proof.
  intros Hres Hq Hreach.
  assert (inv (Number:=Number) p (load p)) as Hinv by (apply inv_load; by rewrite Hq).
  destruct (run_requests p evs (load p) w el Hinv Hres) as [Hnet Hlen]; [|done|].
  { by rewrite load_eq, Hq. }
  revert Hnet Hlen. rewrite load_eq, Hq. simpl. intros -> ->.
  by rewrite length_fmap.
Qed.

(** X8: on a page with the input field but without the results container,
    no history makes the script send a request: every call of [search] is
    rejected with a TypeError on [null] as it starts, and still no exception
    reaches the event loop. *)
Theorem without_results_nothing_is_sent p evs w :
  page_results p = None →
  is_Some (page_query p) →
  run evs (load p) = Some w →
  network w = [] ∧ container w = None ∧ uncaught w = [] ∧
  Forall (λ a, a = Rejected TypeErrorNull) (calls w).
Proof.
  intros Hres Hq Hreach.
  assert (∀ w0 w1, inv p w0 → run evs w0 = Some w1 →
            network w0 = [] → Forall (λ a, a = Rejected TypeErrorNull) (calls w0) →
            network w1 = [] ∧ Forall (λ a, a = Rejected TypeErrorNull) (calls w1))
    as Hgen.
  { clear w Hreach. induction evs as [|ev evs IH]; intros w0 w1 Hinv; simpl run.
    - by intros [= <-].
    - destruct (step ev w0) as [w|] eqn:Hstep; [|done]. simpl.
      intros Hrun Hnet Hcalls.
      pose proof (inv_step _ _ _ _ Hinv Hstep) as Hinv1.
      assert (results_el w0 = None) as Hnone.
      { destruct (results_el w0) eqn:Hr; [|done].
        destruct (proj1 (inv_results _ _ Hinv)) as [? Hp]; [by eexists|].
        by rewrite Hres in Hp. }
      assert (∀ j a, calls w0 !! j = Some a → pending a = true → False) as Hnop.
      { intros j a Hj Ha. by rewrite (Forall_lookup_1 _ _ _ _ Hcalls Hj) in Ha. }
      apply (IH w w1 Hinv1 Hrun);
        destruct (step_outcome _ _ _ _ Hinv Hstep);
        try done; try (by exfalso; eapply Hnop);
        rewrite search_eq, Hnone; simpl; [done|].
      apply Forall_app. split; [done|by apply Forall_singleton]. }
  pose proof (inv_reach _ _ _ Hq Hreach) as Hinv.
  destruct (Hgen (load p) w) as [Hnet Hcalls]; try done.
  { by apply inv_load. }
  { destruct Hq as [el Hel]. by rewrite load_eq, Hel. }
  { destruct Hq as [el Hel]. by rewrite load_eq, Hel. }
  split; [done|]. split; [|split; [apply Hinv|done]].
  unfold container. destruct (results_el w) eqn:Hr; [|done].
  destruct (proj1 (inv_results _ _ Hinv)) as [? Hp]; [by eexists|].
  by rewrite Hres in Hp.
Qed.

(** X10: on a page with the input field, whatever the user and the network
    do, no exception ever reaches the event loop (every failure of a search
    is a rejection of its promise), the listener stays on the input field, and
    the script neither removes nor creates the two elements it looks up. *)
Theorem event_loop_sees_no_exception p evs w :
  is_Some (page_query p) →
  run evs (load p) = Some w →
  uncaught w = [] ∧
  listening w = Some QueryRef ∧
  is_Some (query_el w) ∧
  (is_Some (results_el w) ↔ is_Some (page_results p)).
Proof.
  intros Hq Hreach. by destruct (inv_reach _ _ _ Hq Hreach).
Qed.

Lemma step_rendered p ev w w' kids :
  inv p w → step ev w = Some w' →
  container w = Some kids →
  Forall (λ n, ∃ texts, n = list_of (items_of texts)) kids →
  ∃ kids', container w' = Some kids' ∧
           Forall (λ n, ∃ texts, n = list_of (items_of texts)) kids'.
Proof.
  intros Hinv Hstep Hcont Hkids. unfold container in *.
  destruct (step_outcome _ _ _ _ Hinv Hstep) as
    [ | | | | | | |
    |i parsed el entries ul' gp gr Hi Hel Hit Hloop]; simpl; eauto.
  - rewrite search_eq. destruct (results_el w); [|done]. simpl. by exists [].
  - rewrite Hel in Hcont. injection Hcont as <-. eexists. split; [done|].
    apply Forall_app. split; [done|]. apply Forall_singleton.
    unfold list_of in Hloop.
    destruct (for_of_texts_inv _ _ _ _ _ _ _ Hloop) as (texts & _ & ->).
    by exists texts.
Qed.

(** X11: once a search has been started on a page with both elements, the
    results container holds nothing but lists that the script rendered:
    whatever the page held before is gone, and every child is a [ul] of class
    "result-list" whose items are a span with a text, a space and a span of
    class "rank" with a text.  No response, whatever it contains, puts any
    other element into the page. *)
Theorem container_holds_rendered_lists p evs1 evs2 w :
  is_Some (page_results p) → is_Some (page_query p) →
  run (evs1 ++ KeyPress Enter :: evs2) (load p) = Some w →
  ∃ kids, container w = Some kids ∧
          Forall (λ n, ∃ texts, n = list_of (items_of texts)) kids.
Proof.
  intros Hres Hq Hrun. rewrite run_app in Hrun.
  destruct (run evs1 (load p)) as [w0|] eqn:Hrun0; [|done].
  cbn [mbind option_bind run] in Hrun.
  pose proof (inv_reach _ _ _ Hq Hrun0) as Hinv0.
  destruct (enter_search p w0 Hinv0 Hres) as (w1 & Hkey & Hinv1 & Hcont & _).
  rewrite Hkey in Hrun. cbn [mbind option_bind] in Hrun.
  assert (∃ kids, container w1 = Some kids ∧
            Forall (λ n, ∃ texts, n = list_of (items_of texts)) kids) as Hstart
    by (by exists []).
  clear Hcont Hkey Hrun0 Hinv0. revert w1 Hinv1 Hstart Hrun.
  induction evs2 as [|ev evs2 IH]; intros w1 Hinv1 Hstart; simpl.
  - by intros [= <-].
  - destruct (step ev w1) as [w2|] eqn:Hstep; [|done]. simpl.
    destruct Hstart as (kids & Hcont & Hkids).
    apply IH; eauto using inv_step, step_rendered.
Qed.

End Properties.

(** * The properties on the sample page *)

Lemma search_renders_response_witness :
  ∃ w' : World SafeInteger,
    run [KeyPress Enter; FetchFulfilled 0;
         JsonFulfilled 0 (response_of sample_entries)] (load sample_page) = Some w' ∧
    container w' =
      Some [list_of [item_of (lit "a.txt") (lit "3"); item_of (lit "b.txt") (lit "1")]] ∧
    calls w' !! 0 = Some Fulfilled.
Proof.
  refine (proj2 (search_renders_response sample_page [] (load sample_page)
                   sample_entries _ _ _));
    [by eexists|by eexists|reflexivity].
Defined.

Lemma search_issues_one_request_witness :
  network rendered_world =
  [{| url := lit "/api/search"; method := lit "POST";
      headers := [(lit "Content-Type", lit "text/plain")]; body := lit "needle" |}].
Proof.
  apply (search_issues_one_request sample_page [] (load sample_page) (lit "needle")
           [FetchFulfilled 0; JsonFulfilled 0 (response_of sample_entries)]
           rendered_world);
    [by eexists|by eexists|reflexivity|by repeat constructor|by vm_compute].
Defined.

Lemma search_clears_container_witness :
  ∃ w1 : World SafeInteger,
    step (KeyPress Enter) (load sample_page) = Some w1 ∧
    container (load (Number:=SafeInteger) sample_page)
      = Some [list_of [item_of (lit "old") (lit "9")]] ∧
    container w1 = Some [].
Proof.
  eexists. split; [reflexivity|]. split; [reflexivity|].
  refine (proj1 (search_clears_container sample_page [] (load sample_page) _
                   _ _ _ _));
    [by eexists|by eexists|reflexivity|reflexivity].
Defined.

Lemma failed_search_leaves_container_empty_witness :
  ∃ w' : World SafeInteger,
    run [KeyPress Enter; FetchRejected 0 TypeErrorFetch] (load sample_page) = Some w' ∧
    container w' = Some [] ∧
    query_el w' = query_el (load (Number:=SafeInteger) sample_page) ∧
    calls w' !! 0 = Some (Rejected TypeErrorFetch) ∧
    TypeErrorFetch ∈ unhandled w' ∧ uncaught w' = [].
Proof.
  refine (proj1 (proj2 (failed_search_leaves_container_empty sample_page []
                          (load sample_page) TypeErrorFetch _ _ _)));
    [by eexists|by eexists|reflexivity].
Defined.

Lemma missing_elements_witness :
  uncaught (load (Number:=SafeInteger) page_without_query) = [TypeErrorNull] ∧
  listening (load (Number:=SafeInteger) page_without_query) = None ∧
  uncaught (load (Number:=SafeInteger) page_without_results) = [] ∧
  calls (search (lit "needle") (load (Number:=SafeInteger) page_without_results)).2
    = [Rejected TypeErrorNull] ∧
  network (search (lit "needle") (load (Number:=SafeInteger) page_without_results)).2 = [].
Proof.
  destruct (missing_elements (Number:=SafeInteger) page_without_query) as [Habsent _].
  destruct (missing_elements (Number:=SafeInteger) page_without_results) as [_ Hpresent].
  destruct (Habsent eq_refl) as [Hunc Hlis].
  destruct (Hpresent ltac:(by eexists)) as (Hunc' & _ & Hsearch).
  destruct (Hsearch eq_refl [] (load page_without_results) (lit "needle") eq_refl)
    as (Hcalls & Hnet & _).
  done.
Defined.

Lemma keypress_listener_witness :
  dispatch_keypress {| key := lit "a"; defaultPrevented := false |}
    (load (Number:=SafeInteger) sample_page)
  = ({| key := lit "a"; defaultPrevented := false |}, load sample_page).
Proof.
  refine (proj2 (keypress_listener sample_page [] (load sample_page)
                   {| children := []; value := lit "needle" |} _ _ _ _) _);
    [by eexists|reflexivity|reflexivity|by vm_compute].
Defined.

Lemma empty_response_renders_empty_list_witness :
  ∃ w' : World SafeInteger,
    run [KeyPress Enter; FetchFulfilled 0; JsonFulfilled 0 (JArray [])]
      (load sample_page) = Some w' ∧
    container w' = Some [Elem (lit "ul") (lit "result-list") []] ∧
    calls w' !! 0 = Some Fulfilled.
Proof.
  apply (empty_response_renders_empty_list sample_page [] (load sample_page));
    [by eexists|by eexists|reflexivity].
Defined.

Lemma concurrent_searches_both_render_witness :
  ∃ w' : World SafeInteger,
    run (two_searches ++ second_arrives ++ first_arrives) (load sample_page)
      = Some w' ∧
    network w' = [search_request (lit "a"); search_request (lit "b")] ∧
    calls w' = [Fulfilled; Fulfilled] ∧
    container w' =
      Some [list_of (entry_item <$> other_entries);
            list_of (entry_item <$> sample_entries)].
Proof.
  apply (concurrent_searches_both_render sample_page [] (load sample_page)
           (lit "a") (lit "b") sample_entries other_entries
           (second_arrives ++ first_arrives));
    [by eexists|by eexists|reflexivity|].
  do 5 apply list_elem_of_further. apply list_elem_of_here.
Defined.

Lemma malformed_entry_renders_nothing_witness :
  ∃ (w' : World SafeInteger) e,
    run [KeyPress Enter; FetchFulfilled 0; JsonFulfilled 0 (JArray malformed_entries)]
      (load sample_page) = Some w' ∧
    container w' = Some [] ∧
    calls w' !! 0 = Some (Rejected e).
Proof.
  refine (proj1 (proj2 (malformed_entry_renders_nothing sample_page []
                          (load sample_page) malformed_entries _ _ _ _)));
    [by eexists|by eexists|reflexivity|].
  apply Exists_cons_tl, Exists_cons_hd. by exists TypeErrorNotIterable.
Defined.

Lemma loop_variables_are_globals_witness :
  global_path rendered_world = Some (FromJson (JString (lit "b.txt"))) ∧
  global_rank rendered_world = Some (FromJson (JNumber int_1)).
Proof.
  destruct (loop_variables_are_globals sample_page
              [KeyPress Enter; FetchFulfilled 0] waiting_world 0
              (entry_json <$> sample_entries) rendered_world)
    as (entry & pth & rnk & Hlast & Hd & Hp & Hr & _);
    [by eexists|by vm_compute|by vm_compute|reflexivity|done|].
  done.
Defined.

(** * Where the specification and the script part *)

(** C3 as stated fails: the container does not always stay empty until the
    list of the search that cleared it is appended.  On the sample page two
    searches are started; the second clears the container; then the body of
    the first arrives, and its list is in the container while the second
    search still waits for its response. *)
Lemma container_refilled_before_own_response :
  (container <$> run two_searches (load (Number:=SafeInteger) sample_page)) = Some (Some []) ∧
  (calls <$> run (two_searches ++ first_arrives) (load (Number:=SafeInteger) sample_page))
    = Some [Fulfilled; AwaitFetch (Some ResultsRef)] ∧
  (container <$> run (two_searches ++ first_arrives) (load (Number:=SafeInteger) sample_page))
    = Some (Some [list_of [item_of (lit "a.txt") (lit "3");
                           item_of (lit "b.txt") (lit "1")]]).
Proof. by vm_compute. Qed.

(** C4 as stated fails: the container does not always remain cleared when a
    search fails.  On the sample page two searches are started; the response
    and the body of the first arrive and its list is appended; then the
    request of the second fails.  The second call is rejected, and the
    container shows the list of the first. *)
Lemma failed_search_beside_rendered_list :
  (calls <$>
     run (two_searches ++ first_arrives ++ [FetchRejected 1 TypeErrorFetch])
       (load (Number:=SafeInteger) sample_page))
    = Some [Fulfilled; Rejected TypeErrorFetch] ∧
  (container <$>
     run (two_searches ++ first_arrives ++ [FetchRejected 1 TypeErrorFetch])
       (load (Number:=SafeInteger) sample_page))
    = Some (Some [list_of [item_of (lit "a.txt") (lit "3");
                           item_of (lit "b.txt") (lit "1")]]) ∧
  (container <$>
     run (two_searches ++ first_arrives ++ [FetchRejected 1 TypeErrorFetch])
       (load (Number:=SafeInteger) sample_page))
    ≠ Some (Some []).
Proof. split; [by vm_compute|]. split; [by vm_compute|]. vm_compute. discriminate. Qed.

(** C5 as stated fails: a page without the element "results" does not
    stop the script at load time.  The script loads without an exception and
    registers its listener. *)
Lemma load_without_results_succeeds :
  page_results page_without_results = None ∧
  uncaught (load (Number:=SafeInteger) page_without_results) = [] ∧
  listening (load (Number:=SafeInteger) page_without_results) = Some QueryRef.
Proof. by vm_compute. Qed.

(** C8 as stated fails: the response that arrives last does not decide
    what the container shows.  With two searches in flight and the second
    response arriving last, the container holds the list of the first search
    followed by the list of the second, not the list of the second alone. *)
Lemma last_response_does_not_win :
  (container <$>
     run (two_searches ++ first_arrives ++ second_arrives) (load (Number:=SafeInteger) sample_page))
    = Some (Some [list_of [item_of (lit "a.txt") (lit "3");
                           item_of (lit "b.txt") (lit "1")];
                  list_of [item_of (lit "c.txt") (lit "7")]]) ∧
  (container <$>
     run (two_searches ++ first_arrives ++ second_arrives) (load (Number:=SafeInteger) sample_page))
    ≠ Some (Some [list_of [item_of (lit "c.txt") (lit "7")]]).
Proof. split; [by vm_compute|]. vm_compute. discriminate. Qed.

(** * The further properties on the sample page *)

Lemma non_iterable_body_rejected_witness :
  step (JsonFulfilled 0 JNull) waiting_world
  = Some (set_calls (<[0 := Rejected TypeErrorNotIterable]> (calls waiting_world))
            waiting_world).
Proof.
  apply (non_iterable_body_rejected sample_page [KeyPress Enter; FetchFulfilled 0]
           waiting_world 0 (Some ResultsRef) (list_of []) JNull);
    [by eexists|by vm_compute|reflexivity|done|done].
Defined.

Lemma fulfilled_search_appends_items_witness :
  ∃ entries texts,
    iterate (response_of sample_entries) = Normal entries ∧
    Forall2 (λ entry t, entry_texts entry = Normal t) entries texts ∧
    container rendered_world
      = (λ kids, kids ++ [list_of (items_of texts)]) <$> container waiting_world.
Proof.
  apply (fulfilled_search_appends_items sample_page
           [KeyPress Enter; FetchFulfilled 0] waiting_world 0
           (response_of sample_entries) rendered_world);
    [by eexists|by vm_compute|by vm_compute|reflexivity].
Defined.

Lemma failing_entry_rejects_witness :
  ∃ w' : World SafeInteger,
    step (JsonFulfilled 0
            (JArray [ JArray [JString (lit "a.txt"); JNumber int_3];
                      JArray [JString (lit "b.txt");
                              JObject [(lit "toString", JNull)]] ]))
      waiting_world = Some w' ∧
    calls w' = [Rejected TypeErrorNotPrimitive] ∧
    container w' = Some [] ∧
    global_path w' = Some (FromJson (JString (lit "b.txt"))) ∧
    global_rank w' = Some (FromJson (JObject [(lit "toString", JNull)])).
Proof.
  destruct (failing_entry_rejects sample_page [KeyPress Enter; FetchFulfilled 0]
              waiting_world 0 (Some ResultsRef) (list_of [])
              [JArray [JString (lit "a.txt"); JNumber int_3]]
              [(lit "a.txt", lit "3")]
              (JArray [JString (lit "b.txt"); JObject [(lit "toString", JNull)]])
              [] TypeErrorNotPrimitive)
    as (w' & Hstep & Hcalls & Hcont & _ & Hpath & Hrank);
    [by eexists|by vm_compute|reflexivity|by repeat constructor|reflexivity|].
  exists w'. by rewrite Hcalls, Hcont.
Defined.

Lemma rows_of_any_length_render_witness :
  ∃ w' : World SafeInteger,
    step (JsonFulfilled 0
            (JArray [ row_json [lit "a.txt"; lit "3"; lit "more"];
                      row_json [lit "b.txt"];
                      row_json [] ]))
      waiting_world = Some w' ∧
    calls w' !! 0 = Some Fulfilled ∧
    container w' =
      Some [list_of [ item_of (lit "a.txt") (lit "3");
                      item_of (lit "b.txt") (lit "undefined");
                      item_of (lit "undefined") (lit "undefined") ]].
Proof.
  apply (rows_of_any_length_render sample_page [KeyPress Enter; FetchFulfilled 0]
           waiting_world 0 (Some ResultsRef) (list_of [])
           [[lit "a.txt"; lit "3"; lit "more"]; [lit "b.txt"]; []]);
    [by eexists|by vm_compute|reflexivity].
Defined.

Lemma string_body_renders_code_points_witness :
  ∃ w' : World SafeInteger,
    step (JsonFulfilled 0 (JString (lit "ab"))) waiting_world = Some w' ∧
    calls w' !! 0 = Some Fulfilled ∧
    container w' =
      Some [list_of [ item_of (lit "a") (lit "undefined");
                      item_of (lit "b") (lit "undefined") ]] ∧
    mjoin (code_points (lit "ab")) = lit "ab".
Proof.
  apply (string_body_renders_code_points sample_page
           [KeyPress Enter; FetchFulfilled 0] waiting_world 0 (Some ResultsRef)
           (list_of []) (lit "ab"));
    [by eexists|by vm_compute|reflexivity].
Defined.

Lemma input_field_untouched_witness :
  query_el waiting_world = query_el (load (Number:=SafeInteger) sample_page).
Proof.
  apply (input_field_untouched sample_page [] (load sample_page)
           [KeyPress Enter; FetchFulfilled 0] waiting_world);
    [by eexists|reflexivity|by repeat constructor|by vm_compute].
Defined.

Lemma request_log_witness :
  network two_started_world = [search_request (lit "a"); search_request (lit "b")] ∧
  length (calls two_started_world) = length (network two_started_world).
Proof.
  refine (request_log sample_page two_searches two_started_world
            {| children := []; value := lit "needle" |} _ _ _);
    [by eexists|reflexivity|by vm_compute].
Defined.

Lemma without_results_nothing_is_sent_witness :
  network twice_rejected_world = [] ∧
  container twice_rejected_world = None ∧
  uncaught twice_rejected_world = [] ∧
  Forall (λ a, a = Rejected TypeErrorNull) (calls twice_rejected_world).
Proof.
  refine (without_results_nothing_is_sent page_without_results
            [KeyPress Enter; Typing (lit "again"); KeyPress Enter]
            twice_rejected_world _ _ _);
    [reflexivity|by eexists|by vm_compute].
Defined.

Lemma event_loop_sees_no_exception_witness :
  uncaught waiting_world = [] ∧
  listening waiting_world = Some QueryRef ∧
  is_Some (query_el waiting_world) ∧
  (is_Some (results_el waiting_world) ↔ is_Some (page_results sample_page)).
Proof.
  apply (event_loop_sees_no_exception sample_page
           [KeyPress Enter; FetchFulfilled 0] waiting_world);
    [by eexists|by vm_compute].
Defined.

Lemma container_holds_rendered_lists_witness :
  ∃ kids,
    container rendered_world = Some kids ∧
    Forall (λ n, ∃ texts, n = list_of (items_of texts)) kids.
Proof.
  apply (container_holds_rendered_lists sample_page [] first_arrives
           rendered_world); [by eexists|by eexists|by vm_compute].
Defined.
